(** * SafeMind: the cryptographic, verification and vault core

    A shallow embedding of the client-side core of the SafeMind application:
    - [lib/crypto]  (hex helpers, attestation check, ECIES-style message
      encryption and decryption, signature fetch),
    - [lib/near-ai] (the streamed chat exchange and its verification),
    - [lib/storage] (the passphrase-encrypted conversation vault),
    - the retention code of [app/page.tsx].

    Conventions.
    - A JavaScript string is the list of its UTF-16 code units ([jsstring]).
    - A [Uint8Array] is a [list byte]; a store into it wraps modulo 256
      ([ToUint8]).
    - An [async] function returns an [outcome]: it resolves with a value or
      rejects with an error.
    - The elliptic curve, HKDF, PBKDF2, AES-GCM, Base64 and JSON serialisation
      are supplied by the platform and by the noble libraries; they are
      parameters of the sections below, with the laws the proofs rely on stated
      as hypotheses.  [TextEncoder] and [TextDecoder] are modelled in full,
      since what survives a round trip depends on them. *)

From Stdlib Require Import Strings.String Strings.Ascii Strings.Byte.
From Stdlib Require Import ZArith List Lia Bool.
From Stdlib Require Import Sorting.Permutation Sorting.Sorted.
Import ListNotations.
Open Scope Z_scope.

Set Implicit Arguments.

(** Integer arithmetic is reasoned about with [lia], never by unfolding. *)
#[global] Arguments Z.add : simpl never.
#[global] Arguments Z.sub : simpl never.
#[global] Arguments Z.mul : simpl never.
#[global] Arguments Z.div : simpl never.
#[global] Arguments Z.modulo : simpl never.
#[global] Arguments Z.opp : simpl never.

(* ================================================================== *)
(** * Bytes and strings *)

Definition byte := Byte.byte.

Definition byte_to_Z (b : byte) : Z := Z.of_N (Byte.to_N b).

(** A store of an integer into a [Uint8Array] element. *)
Definition ToUint8 (z : Z) : byte :=
  match Byte.of_N (Z.to_N (z mod 256)) with
  | Some b => b
  | None => x00
  end.

Definition jsstring := list Z.

(** An ASCII literal as a JavaScript string. *)
Definition js (s : string) : jsstring :=
  map (fun a => Z.of_N (N_of_ascii a)) (list_ascii_of_string s).

Fixpoint str_eqb (s t : jsstring) : bool :=
  match s, t with
  | [], [] => true
  | c :: s', d :: t' => (c =? d) && str_eqb s' t'
  | _, _ => false
  end.

Definition startsWith (s prefix : jsstring) : bool :=
  str_eqb (firstn (length prefix) s) prefix.

(** [s.slice(a)] and [s.slice(a, b)] for indices [0 <= a <= b]; they are the
    same on arrays. *)
Definition slice_from {A} (a : nat) (l : list A) : list A := skipn a l.
Definition slice {A} (a b : nat) (l : list A) : list A := firstn (b - a) (skipn a l).
(** [s.slice(-n)]. *)
Definition slice_last {A} (n : nat) (l : list A) : list A := skipn (length l - n) l.

(* ------------------------------------------------------------------ *)
(** ** [parseInt(s, 16)] *)

Definition hexDigitValue (c : Z) : option Z :=
  if (48 <=? c) && (c <=? 57) then Some (c - 48)
  else if (97 <=? c) && (c <=? 102) then Some (c - 87)
  else if (65 <=? c) && (c <=? 70) then Some (c - 55)
  else None.

(** White space and line terminators, as [parseInt] and [trim] skip them. *)
Definition isWhiteSpace (c : Z) : bool :=
  (c =? 9) || (c =? 10) || (c =? 11) || (c =? 12) || (c =? 13) || (c =? 32)
  || (c =? 160) || (c =? 5760) || ((8192 <=? c) && (c <=? 8202))
  || (c =? 8232) || (c =? 8233) || (c =? 8239) || (c =? 8287)
  || (c =? 12288) || (c =? 65279).

Fixpoint dropWhiteSpace (s : jsstring) : jsstring :=
  match s with
  | c :: s' => if isWhiteSpace c then dropWhiteSpace s' else s
  | [] => []
  end.

(** The value of the longest prefix of hexadecimal digits, [None] when that
    prefix is empty. *)
Fixpoint hexDigits (acc : option Z) (s : jsstring) : option Z :=
  match s with
  | c :: s' =>
      match hexDigitValue c with
      | Some d => hexDigits (Some (16 * match acc with Some a => a | None => 0 end + d)) s'
      | None => acc
      end
  | [] => acc
  end.

(** [parseInt(s, 16)]; [None] is [NaN].  (Exact as long as the value fits a
    double without rounding, which the two-character slices of [hexToBytes]
    always do.) *)
Definition parseInt16 (s : jsstring) : option Z :=
  let s1 := dropWhiteSpace s in
  let sign := if startsWith s1 (js "-") then -1 else 1 in
  let s2 := if startsWith s1 (js "-") || startsWith s1 (js "+") then skipn 1 s1 else s1 in
  let s3 := if startsWith s2 (js "0x") || startsWith s2 (js "0X") then skipn 2 s2 else s2 in
  match hexDigits None s3 with
  | Some v => Some (sign * v)
  | None => None
  end.

(** Storing the result of [parseInt] into a [Uint8Array]: [NaN] becomes 0. *)
Definition storeNumber (v : option Z) : byte :=
  match v with
  | Some z => ToUint8 z
  | None => x00
  end.

(* ------------------------------------------------------------------ *)
(** ** [hexToBytes], [bytesToHex], [normalizePubKey], [isHex] *)

Definition stripHexPrefix (hex : jsstring) : jsstring :=
  if startsWith hex (js "0x") then skipn 2 hex else hex.

(** The loop of [hexToBytes]: one byte per complete pair of characters (the
    array has [floor(length / 2)] elements, so the store for a trailing single
    character falls outside it and is dropped). *)
Fixpoint hexPairs (clean : jsstring) : list byte :=
  match clean with
  | c1 :: c2 :: rest => storeNumber (parseInt16 [c1; c2]) :: hexPairs rest
  | _ => []
  end.

Definition hexToBytes (hex : jsstring) : list byte :=
  hexPairs (stripHexPrefix hex).

Definition hexDigitChar (d : Z) : Z := if d <? 10 then 48 + d else 87 + d.

(** [b.toString(16).padStart(2, "0")] *)
Definition byteToHex (b : byte) : jsstring :=
  [hexDigitChar (byte_to_Z b / 16); hexDigitChar (byte_to_Z b mod 16)].

Definition bytesToHex (bytes : list byte) : jsstring :=
  flat_map byteToHex bytes.

Definition normalizePubKey (pubKeyHex : jsstring) : list byte :=
  let clean := stripHexPrefix pubKeyHex in
  let bytes := hexToBytes clean in
  if Nat.eqb (length bytes) 64 then x04 :: bytes else bytes.

(** [/^[0-9a-fA-F]+$/.test(value)] *)
Definition isHexChar (c : Z) : bool :=
  match hexDigitValue c with Some _ => true | None => false end.

Definition isHex (value : jsstring) : bool :=
  negb (Nat.eqb (length value) 0) && forallb isHexChar value.

(* ================================================================== *)
(** * [TextEncoder] and [TextDecoder] (UTF-8)

    [new TextEncoder().encode(s)] first reads [s] as a sequence of Unicode
    scalar values, a surrogate code unit without its partner becoming U+FFFD,
    and then writes each one in UTF-8.  [new TextDecoder().decode(bytes)] runs
    the UTF-8 decoder of the Encoding standard (every ill-formed sequence
    gives U+FFFD), removes one leading byte order mark U+FEFF (the
    [ignoreBOM] option is off by default), and writes the result in UTF-16. *)

Definition isHighSurrogate (c : Z) : bool := (0xD800 <=? c) && (c <=? 0xDBFF).
Definition isLowSurrogate (c : Z) : bool := (0xDC00 <=? c) && (c <=? 0xDFFF).

Fixpoint toScalarValues (s : jsstring) : list Z :=
  match s with
  | [] => []
  | c :: rest =>
      if isHighSurrogate c then
        match rest with
        | d :: rest' =>
            if isLowSurrogate d
            then (0x10000 + (c - 0xD800) * 0x400 + (d - 0xDC00)) :: toScalarValues rest'
            else 0xFFFD :: toScalarValues rest
        | [] => [0xFFFD]
        end
      else if isLowSurrogate c then 0xFFFD :: toScalarValues rest
      else c :: toScalarValues rest
  end.

Definition utf8EncodeScalar (cp : Z) : list byte :=
  if cp <? 0x80 then [ToUint8 cp]
  else if cp <? 0x800 then
    [ToUint8 (0xC0 + cp / 0x40); ToUint8 (0x80 + cp mod 0x40)]
  else if cp <? 0x10000 then
    [ToUint8 (0xE0 + cp / 0x1000); ToUint8 (0x80 + (cp / 0x40) mod 0x40);
     ToUint8 (0x80 + cp mod 0x40)]
  else
    [ToUint8 (0xF0 + cp / 0x40000); ToUint8 (0x80 + (cp / 0x1000) mod 0x40);
     ToUint8 (0x80 + (cp / 0x40) mod 0x40); ToUint8 (0x80 + cp mod 0x40)].

Definition TextEncoder_encode (s : jsstring) : list byte :=
  flat_map utf8EncodeScalar (toScalarValues s).

(** The state of the UTF-8 decoder. *)
Record utf8State := {
  codePoint : Z;
  bytesSeen : Z;
  bytesNeeded : Z;
  lowerBoundary : Z;
  upperBoundary : Z
}.

Definition utf8Initial : utf8State :=
  {| codePoint := 0; bytesSeen := 0; bytesNeeded := 0;
     lowerBoundary := 0x80; upperBoundary := 0xBF |}.

(** A byte read while no sequence is open: the new state and what is emitted. *)
Definition utf8Lead (b : Z) : utf8State * list Z :=
  if b <=? 0x7F then (utf8Initial, [b])
  else if (0xC2 <=? b) && (b <=? 0xDF) then
    ({| codePoint := b - 0xC0; bytesSeen := 0; bytesNeeded := 1;
        lowerBoundary := 0x80; upperBoundary := 0xBF |}, [])
  else if (0xE0 <=? b) && (b <=? 0xEF) then
    ({| codePoint := b - 0xE0; bytesSeen := 0; bytesNeeded := 2;
        lowerBoundary := if b =? 0xE0 then 0xA0 else 0x80;
        upperBoundary := if b =? 0xED then 0x9F else 0xBF |}, [])
  else if (0xF0 <=? b) && (b <=? 0xF4) then
    ({| codePoint := b - 0xF0; bytesSeen := 0; bytesNeeded := 3;
        lowerBoundary := if b =? 0xF0 then 0x90 else 0x80;
        upperBoundary := if b =? 0xF4 then 0x8F else 0xBF |}, [])
  else (utf8Initial, [0xFFFD]).

Definition utf8Step (st : utf8State) (b : Z) : utf8State * list Z :=
  if bytesNeeded st =? 0 then utf8Lead b
  else if (b <? lowerBoundary st) || (upperBoundary st <? b) then
    (* the open sequence is ill-formed; the byte is read again afresh *)
    let (st', out) := utf8Lead b in (st', 0xFFFD :: out)
  else
    let cp := codePoint st * 0x40 + (b - 0x80) in
    if bytesSeen st + 1 =? bytesNeeded st then (utf8Initial, [cp])
    else ({| codePoint := cp; bytesSeen := bytesSeen st + 1;
             bytesNeeded := bytesNeeded st;
             lowerBoundary := 0x80; upperBoundary := 0xBF |}, []).

Fixpoint utf8Decode (st : utf8State) (bytes : list byte) : list Z :=
  match bytes with
  | [] => if bytesNeeded st =? 0 then [] else [0xFFFD]
  | b :: rest =>
      let (st', out) := utf8Step st (byte_to_Z b) in
      out ++ utf8Decode st' rest
  end.

Definition dropBOM (cps : list Z) : list Z :=
  match cps with
  | c :: rest => if c =? 0xFEFF then rest else cps
  | [] => []
  end.

Definition codePointToUnits (cp : Z) : jsstring :=
  if cp <? 0x10000 then [cp]
  else [0xD800 + (cp - 0x10000) / 0x400; 0xDC00 + (cp - 0x10000) mod 0x400].

Definition TextDecoder_decode (bytes : list byte) : jsstring :=
  flat_map codePointToUnits (dropBOM (utf8Decode utf8Initial bytes)).

(** [s.isWellFormed()]: every code unit is a 16-bit value and every surrogate
    has its partner. *)
Fixpoint isWellFormed (s : jsstring) : bool :=
  match s with
  | [] => true
  | c :: rest =>
      if isHighSurrogate c then
        match rest with
        | d :: rest' => isLowSurrogate d && isWellFormed rest'
        | [] => false
        end
      else negb (isLowSurrogate c) && (0 <=? c) && (c <=? 0xFFFF) && isWellFormed rest
  end.

Definition startsWithBOM (s : jsstring) : bool :=
  match s with
  | c :: _ => c =? 0xFEFF
  | [] => false
  end.

Definition isScalarValue (cp : Z) : bool :=
  (0 <=? cp) && (cp <? 0x110000) && negb ((0xD800 <=? cp) && (cp <=? 0xDFFF)).

(* ================================================================== *)
(** * Outcomes of asynchronous calls *)

(** The errors the program raises itself, and those of the platform. *)
Inductive error :=
| AttestationRequestFailed (status : Z) (* "Attestation request failed: <status>" *)
| NoModelPublicKey       (* "No model public key in attestation response" *)
| VaultLocked            (* "Vault is locked" *)
| NearApiError (status : Z) (* "NEAR AI API error <status>: ..." *)
| NoResponseStream       (* "No response stream available" *)
| TypeError              (* a property read on null, a call of a missing method *)
| SyntaxError            (* [JSON.parse], [res.json()] *)
| OperationError         (* [crypto.subtle]: the AES-GCM tag does not verify *)
| DataError              (* [crypto.subtle.importKey]: bad key length *)
| InvalidCharacterError  (* [atob], [btoa] *)
| CurveError             (* secp256k1: bad secret key or point *)
| NetworkError.          (* [fetch] itself failed *)

Inductive outcome (A : Type) :=
| Resolved (a : A)
| Rejected (e : error).
Arguments Resolved {A} a.
Arguments Rejected {A} e.

Definition bind {A B} (m : outcome A) (k : A -> outcome B) : outcome B :=
  match m with
  | Resolved a => k a
  | Rejected e => Rejected e
  end.

Notation "x <- m ;; k" := (bind m (fun x => k))
  (at level 61, m at next level, right associativity).

(** A platform call that throws on failure. *)
Definition orThrow {A} (e : error) (o : option A) : outcome A :=
  match o with
  | Some a => Resolved a
  | None => Rejected e
  end.

Definition isResolved {A} (m : outcome A) : bool :=
  match m with Resolved _ => true | Rejected _ => false end.

(* ------------------------------------------------------------------ *)
(** ** The random source

    [crypto.getRandomValues] reads the next bytes of the sequence the source
    is going to deliver. *)

Definition entropy := nat -> byte.

Definition getRandomValues (n : nat) (e : entropy) : list byte * entropy :=
  (map e (seq 0 n), fun i => e (n + i)%nat).

(* ================================================================== *)
(** * JSON values *)

(** A number, as the two things the program ever does with one: test it in a
    condition ([0] and [NaN] are false) and print it. *)
Record number := {
  numberToBoolean : bool;
  numberToString : jsstring
}.

#[local] Unset Elimination Schemes.
Inductive json :=
| JNull
| JBool (b : bool)
| JNumber (n : number)
| JString (s : jsstring)
| JArray (items : list json)
| JObject (members : list (jsstring * json)).
#[local] Set Elimination Schemes.

(** A JavaScript value read out of parsed JSON; [None] is [undefined]. *)
Definition value := option json.

Definition isNullish (v : value) : bool :=
  match v with
  | None | Some JNull => true
  | _ => false
  end.

Fixpoint lookup (name : jsstring) (members : list (jsstring * json)) : value :=
  match members with
  | [] => None
  | (k, v) :: rest => if str_eqb k name then Some v else lookup name rest
  end.

(** [o.name] for [o] neither [null] nor [undefined], and [name] one of the
    member names of the wire formats (none of them is an index, ["length"] or
    a name found on a prototype): only an object has such a property. *)
Definition member (o : json) (name : jsstring) : value :=
  match o with
  | JObject members => lookup name members
  | _ => None
  end.

(** [v.name] *)
Definition getProp (v : value) (name : string) : outcome value :=
  match v with
  | Some o => if isNullish v then Rejected TypeError else Resolved (member o (js name))
  | None => Rejected TypeError
  end.

(** [v?.name] *)
Definition getPropOpt (v : value) (name : string) : value :=
  match v with
  | Some o => if isNullish v then None else member o (js name)
  | None => None
  end.

(** [v?.[0]] *)
Definition getFirstOpt (v : value) : value :=
  match v with
  | Some (JArray items) => hd_error items
  | Some (JObject members) => lookup (js "0") members
  | Some (JString (c :: _)) => Some (JString [c])
  | _ => None
  end.

(** [Boolean(v)], the test of [if (v)] and [!v]. *)
Definition truthy (v : value) : bool :=
  match v with
  | None | Some JNull => false
  | Some (JBool b) => b
  | Some (JNumber n) => numberToBoolean n
  | Some (JString s) => negb (Nat.eqb (length s) 0)
  | Some (JArray _) | Some (JObject _) => true
  end.

Fixpoint join (sep : jsstring) (parts : list jsstring) : jsstring :=
  match parts with
  | [] => []
  | [p] => p
  | p :: rest => p ++ sep ++ join sep rest
  end.

(** [String(v)]: an array prints its elements joined by commas, with [null]
    printed as nothing. *)
Fixpoint toStringJson (v : json) : jsstring :=
  match v with
  | JNull => js "null"
  | JBool true => js "true"
  | JBool false => js "false"
  | JNumber n => numberToString n
  | JString s => s
  | JArray items =>
      join (js ",")
        (map (fun item => match item with JNull => [] | _ => toStringJson item end) items)
  | JObject _ => js "[object Object]"
  end.

(** [v === s] for a string [s]. *)
Definition strictEqualsString (v : value) (s : jsstring) : bool :=
  match v with
  | Some (JString t) => str_eqb t s
  | _ => false
  end.

(* ------------------------------------------------------------------ *)
(** ** HTTP replies *)

(** What [fetch] resolves with; [json_body] is [None] when [res.json()]
    rejects because the body is not JSON. *)
Record Response := {
  ok : bool;
  status : Z;
  json_body : option json
}.

(** [None]: [fetch] itself rejects. *)
Definition fetchReply := option Response.

(* ================================================================== *)
(** * The platform

    The operations the program takes from the browser and from the noble
    libraries without defining them. *)

Record E2EEKeys := {
  publicKeyHex : jsstring;
  privateKey : list byte
}.

Record Message := {
  msg_id : jsstring;
  msg_role : jsstring;
  msg_content : jsstring;
  msg_timestamp : Z;
  msg_encrypted : bool;
  msg_chatId : option jsstring
}.

Record HealthPlanTask := {
  task_id : jsstring;
  task_label : jsstring;
  task_completed : bool
}.

Record HealthPlanDay := {
  day_number : Z;
  day_title : jsstring;
  day_tasks : list HealthPlanTask
}.

Record HealthPlan := {
  plan_id : jsstring;
  plan_templateId : jsstring;
  plan_title : jsstring;
  plan_createdAt : Z;
  plan_goal : jsstring;
  plan_notes : jsstring;
  plan_durationDays : Z;
  plan_days : list HealthPlanDay
}.

(** Times are integral milliseconds, as [Date.now()] gives them; an absent or
    [null] optional field is [None]. *)
Record Conversation := {
  id : jsstring;
  title : jsstring;
  messages : list Message;
  createdAt : Z;
  retentionHours : option Z;
  expiresAt : option Z;
  plans : option (list HealthPlan)
}.

Class Platform := {
  (** [secp256k1.utils.randomSecretKey()] *)
  randomSecretKey : entropy -> list byte * entropy;
  (** [secp256k1.getPublicKey(sk, false)]: the uncompressed point *)
  getPublicKey : list byte -> option (list byte);
  (** [secp256k1.getSharedSecret(sk, pk, false)] *)
  getSharedSecret : list byte -> list byte -> option (list byte);
  (** [hkdf(sha256, ikm, undefined, info, length)] *)
  hkdf : list byte -> list byte -> nat -> list byte;
  (** [crypto.subtle.digest("SHA-256", data)] *)
  sha256 : list byte -> list byte;
  (** [crypto.subtle.deriveKey] with PBKDF2 over SHA-256 to a 256-bit AES-GCM
      key: password, salt, iterations *)
  pbkdf2 : list byte -> list byte -> Z -> list byte;
  (** [crypto.subtle.encrypt] and [decrypt] with AES-GCM: key, iv, data;
      [None] when the operation fails *)
  aesGcmEncrypt : list byte -> list byte -> list byte -> option (list byte);
  aesGcmDecrypt : list byte -> list byte -> list byte -> option (list byte);
  (** [btoa] and [atob] *)
  btoa : jsstring -> option jsstring;
  atob : jsstring -> option jsstring;
  (** [JSON.stringify] of a conversation and [JSON.parse] back to one *)
  JSON_stringify : Conversation -> jsstring;
  JSON_parse : jsstring -> option Conversation;
  (** [JSON.parse] of wire text *)
  JSON_parse_value : jsstring -> option json;
  (** [JSON.stringify] of the chat request [{ model, messages, stream }] *)
  JSON_stringify_request : list (jsstring * jsstring) -> jsstring;
  (** [String.prototype.toLowerCase] *)
  toLowerCase : jsstring -> jsstring
}.

(* ================================================================== *)
(** * lib/constants *)

Definition MODEL_ID : jsstring := js "deepseek-ai/DeepSeek-V3.1".
Definition SIGNING_ALGO : jsstring := js "ecdsa".

Definition SYSTEM_PROMPT : jsstring :=
  js "You are SafeMind, a private AI health and wellness companion. You provide thoughtful, evidence-based health and wellness information.

Guidelines:
- Be empathetic, warm, and thorough in your responses
- Use bullet points and clear formatting for readability
- Always recommend consulting a healthcare professional for serious concerns
- Cover common causes, practical advice, and when to seek help
- Never diagnose conditions "
  ++ [0x2014] ++
  js " provide general wellness information only
- Keep responses focused and actionable

Do not claim a diagnosis. If there are emergency warning signs, clearly advise immediate professional care.".

(* ================================================================== *)
(** * lib/crypto: the attestation check *)

Inductive VerificationLevel := LevelNone | LevelFormat | LevelNonce.

Definition VerificationLevel_eqb (a b : VerificationLevel) : bool :=
  match a, b with
  | LevelNone, LevelNone | LevelFormat, LevelFormat | LevelNonce, LevelNonce => true
  | _, _ => false
  end.

Record AttestationReport := {
  signingPublicKey : jsstring;
  keyFingerprint : jsstring;
  signingAlgo : jsstring;
  environment : jsstring;
  model : jsstring;
  verified : bool;
  verificationLevel : VerificationLevel;
  nonceMatched : bool;
  nonce : jsstring;
  checkedAt : Z;
  note : jsstring
}.

Inductive Role := RoleSystem | RoleUser | RoleAssistant.

Record ChatMessage := {
  role : Role;
  content : jsstring
}.

(** The reply to the chat request: [chat_stream] is the text the reader and
    the streaming [TextDecoder] deliver, read by read; [None] when the
    response has no body. *)
Record ChatResponse := {
  chat_ok : bool;
  chat_status : Z;
  chat_stream : option (list jsstring)
}.

(** The transport, as the reply each request gets.  The attestation request
    is determined by its nonce and the API key header, the signature request
    by the chat id and the API key header, the chat request by its messages
    and headers; the model and the signing algorithm are constants. *)
Record Transport := {
  attestationEndpoint : jsstring -> option jsstring -> fetchReply;
  signatureEndpoint : jsstring -> option jsstring -> fetchReply;
  chatEndpoint :
    list ChatMessage -> list (jsstring * jsstring) -> option jsstring ->
    option ChatResponse
}.

(** [...(apiKey ? { "x-near-api-key": apiKey } : {})] *)
Definition apiKeyHeader (apiKey : option jsstring) : option jsstring :=
  match apiKey with
  | Some k => if Nat.eqb (length k) 0 then None else Some k
  | None => None
  end.

(** "Format valid", in the words of the specification: hexadecimal text of
    128 or 130 characters, not counting an optional ["0x"] in front. *)
Definition formatValid (key : jsstring) : bool :=
  let digits := if startsWith key (js "0x") then skipn 2 key else key in
  forallb isHexChar digits
  && (Nat.eqb (length digits) 128 || Nat.eqb (length digits) 130).

(** [stringAt node s]: the string [s] stands somewhere in [node], as the node
    itself, as an item of an array or as the value of a member, at any depth. *)
Inductive stringAt : json -> jsstring -> Prop :=
| stringAt_here (s : jsstring) : stringAt (JString s) s
| stringAt_item (items : list json) (item : json) (s : jsstring) :
    In item items -> stringAt item s -> stringAt (JArray items) s
| stringAt_member (members : list (jsstring * json)) (k : jsstring) (v : json)
    (s : jsstring) :
    In (k, v) members -> stringAt v s -> stringAt (JObject members) s.

Section Crypto.
Context {P : Platform}.

(** "Nonce matched", in the words of the specification: some string of the
    body equals the nonce, letter case apart. *)
Definition nonceFound (data : json) (nonce : jsstring) : Prop :=
  exists s, stringAt data s /\ toLowerCase s = toLowerCase nonce.

(** [findNonceRecursive].  The values scanned come out of [res.json()], where
    no object is reachable twice, so the [seen] set never stops the scan; it
    is left out. *)
Fixpoint findNonceRecursive (node : json) (nonce : jsstring) : bool :=
  match node with
  | JString s => str_eqb (toLowerCase s) (toLowerCase nonce)
  | JArray items => existsb (fun item => findNonceRecursive item nonce) items
  | JObject members =>
      existsb (fun m => let '(_, v) := m in findNonceRecursive v nonce) members
  | _ => false
  end.

(** [signingPublicKey.replace(/^0x/, "")] *)
Definition replaceLeading0x (s : jsstring) : jsstring :=
  if startsWith s (js "0x") then skipn 2 s else s.

Definition keyLooksValid (signingPublicKey : jsstring) : bool :=
  let cleanKey := replaceLeading0x signingPublicKey in
  let keyLength :=
    if startsWith signingPublicKey (js "0x")
    then (length signingPublicKey - 2)%nat
    else length signingPublicKey in
  isHex cleanKey && (Nat.eqb keyLength 128 || Nat.eqb keyLength 130).

Definition levelOf (keyLooksValid nonceMatched : bool) : VerificationLevel :=
  if keyLooksValid then (if nonceMatched then LevelNonce else LevelFormat)
  else LevelNone.

Definition noteOf (l : VerificationLevel) : jsstring :=
  match l with
  | LevelNonce => js "Model key format and nonce freshness checks passed."
  | LevelFormat => js "Model key format check passed, but nonce echo was not found."
  | LevelNone => js "Attestation payload did not include a valid model key format."
  end.

(** The signing-key field of a reply body:
    [data.model_attestations?.[0]?.signing_public_key]. *)
Definition signingKeyOf (data : json) : value :=
  getPropOpt (getFirstOpt (member data (js "model_attestations"))) "signing_public_key".

(** What [fetchModelPublicKey] does with the reply, once the nonce is drawn. *)
Definition attestationOf (reply : fetchReply) (nonce : jsstring) (now : Z)
  : outcome AttestationReport :=
  res <- orThrow NetworkError reply ;;
  if negb (ok res) then Rejected (AttestationRequestFailed (status res)) else
  data <- orThrow SyntaxError (json_body res) ;;
  attestations <- getProp (Some data) "model_attestations" ;;
  let modelAttestation := getFirstOpt attestations in
  let key := getPropOpt modelAttestation "signing_public_key" in
  if negb (truthy key) then Rejected NoModelPublicKey else
  let signingPublicKey :=
    match key with Some k => toStringJson k | None => [] end in
  let cleanKey := replaceLeading0x signingPublicKey in
  let keyLooksValid := keyLooksValid signingPublicKey in
  let nonceMatched := findNonceRecursive data nonce in
  let keyFingerprint :=
    if Nat.leb 16 (length cleanKey)
    then slice 0 8 cleanKey ++ [0x2026] ++ slice_last 8 cleanKey
    else cleanKey in
  let verificationLevel := levelOf keyLooksValid nonceMatched in
  Resolved {|
    signingPublicKey := signingPublicKey;
    keyFingerprint := keyFingerprint;
    signingAlgo := SIGNING_ALGO;
    environment := js "NEAR AI TEE Enclave";
    model := MODEL_ID;
    verified := VerificationLevel_eqb verificationLevel LevelNonce;
    verificationLevel := verificationLevel;
    nonceMatched := nonceMatched;
    nonce := nonce;
    checkedAt := now;
    note := noteOf verificationLevel
  |}.

Definition fetchModelPublicKey (net : Transport) (apiKey : option jsstring)
  (now : Z) (e : entropy) : outcome AttestationReport * entropy :=
  let (nonceBytes, e') := getRandomValues 32 e in
  let nonce := bytesToHex nonceBytes in
  (attestationOf (attestationEndpoint net nonce (apiKeyHeader apiKey)) nonce now, e').

(* ------------------------------------------------------------------ *)
(** ** lib/crypto: keys, encryption, decryption *)

Definition generateClientKeys (e : entropy) : outcome E2EEKeys * entropy :=
  let (privateKey, e') := randomSecretKey e in
  (publicKey <- orThrow CurveError (getPublicKey privateKey) ;;
   Resolved {| publicKeyHex := bytesToHex publicKey; privateKey := privateKey |},
   e').

(** [hkdf(sha256, sharedSecret, undefined, encode("ecdsa_encryption"), 32)] *)
Definition deriveKey (sharedSecretFull : list byte) : list byte :=
  let sharedSecret := slice 1 33 sharedSecretFull in
  hkdf sharedSecret (TextEncoder_encode (js "ecdsa_encryption")) 32.

Definition encryptMessageWithClientKeys (plaintext modelPubKeyHex : jsstring)
  (clientKeys : E2EEKeys) (e : entropy) : outcome jsstring * entropy :=
  let modelPubKeyBytes := normalizePubKey modelPubKeyHex in
  match getSharedSecret (privateKey clientKeys) modelPubKeyBytes with
  | None => (Rejected CurveError, e)
  | Some sharedSecretFull =>
      let derivedKey := deriveKey sharedSecretFull in
      let (nonce, e') := getRandomValues 12 e in
      let plaintextBytes := TextEncoder_encode plaintext in
      (ciphertextWithTag <-
         orThrow OperationError (aesGcmEncrypt derivedKey nonce plaintextBytes) ;;
       let ephemeralPub := normalizePubKey (publicKeyHex clientKeys) in
       let combined := ephemeralPub ++ nonce ++ ciphertextWithTag in
       Resolved (bytesToHex combined),
       e')
  end.

Definition decryptResponse (encryptedHex : jsstring) (clientPrivateKey : list byte)
  : outcome jsstring :=
  let data := hexToBytes encryptedHex in
  let ephemeralPub := slice 0 65 data in
  let nonce := slice 65 77 data in
  let ciphertextWithTag := slice_from 77 data in
  sharedSecretFull <- orThrow CurveError (getSharedSecret clientPrivateKey ephemeralPub) ;;
  let derivedKey := deriveKey sharedSecretFull in
  decrypted <- orThrow OperationError (aesGcmDecrypt derivedKey nonce ciphertextWithTag) ;;
  Resolved (TextDecoder_decode decrypted).

(** A key pair as [generateClientKeys] makes them: the secret key, and the
    hexadecimal text of its uncompressed public point. *)
Definition isKeyPair (k : E2EEKeys) : Prop :=
  exists publicKey,
    getPublicKey (privateKey k) = Some publicKey /\
    publicKeyHex k = bytesToHex publicKey.

Definition sha256Hex (input : jsstring) : jsstring :=
  bytesToHex (sha256 (TextEncoder_encode input)).

(* ------------------------------------------------------------------ *)
(** ** lib/crypto: the signature record *)

Record ChatSignature := {
  sig_text : value;
  sig_signature : value;
  sig_signingAddress : value;
  sig_signingAlgo : value
}.

Definition signatureOf (reply : fetchReply) : outcome (option ChatSignature) :=
  res <- orThrow NetworkError reply ;;
  if negb (ok res) then Resolved None else
  data <- orThrow SyntaxError (json_body res) ;;
  if negb (truthy (getPropOpt (Some data) "signature"))
     || negb (truthy (getPropOpt (Some data) "text"))
  then Resolved None
  else Resolved (Some {|
    sig_text := getPropOpt (Some data) "text";
    sig_signature := getPropOpt (Some data) "signature";
    sig_signingAddress := getPropOpt (Some data) "signing_address";
    sig_signingAlgo := getPropOpt (Some data) "signing_algo"
  |}).

Definition fetchChatSignature (net : Transport) (chatId : jsstring)
  (apiKey : option jsstring) : outcome (option ChatSignature) :=
  signatureOf (signatureEndpoint net chatId (apiKeyHeader apiKey)).

End Crypto.

(* ================================================================== *)
(** * lib/near-ai *)

Record ChatVerificationResult := {
  ver_chatId : json;
  ver_requestHash : jsstring;
  ver_responseHash : jsstring;
  signatureFetched : bool;
  signatureTextMatches : bool;
  ver_signature : option ChatSignature
}.

(** The variables of the read loop of [streamChat], with the calls made to
    the two callbacks so far. *)
Record StreamState := {
  fullContent : jsstring;
  buffer : jsstring;
  rawResponse : jsstring;
  latestChatId : json;
  onChunkCalls : list json;
  onChatIdCalls : list json
}.

Record StreamResult := {
  res_content : jsstring;
  res_chatId : option json;
  res_verification : option ChatVerificationResult;
  res_onChunkCalls : list json;
  res_onChatIdCalls : list json
}.

Record ChatOptions := {
  apiKey : jsstring;
  message : jsstring;
  history : list ChatMessage;
  useE2EE : bool;
  hasOnChatId : bool
}.

(** [s.trim()] *)
Definition trim (s : jsstring) : jsstring :=
  rev (dropWhiteSpace (rev (dropWhiteSpace s))).

(** [s.split(sep)] for a separator of one code unit. *)
Fixpoint split (sep : Z) (s : jsstring) : list jsstring :=
  match s with
  | [] => [[]]
  | c :: rest =>
      if c =? sep then [] :: split sep rest
      else match split sep rest with
           | first :: others => (c :: first) :: others
           | [] => [[c]]
           end
  end.

Definition roleName (r : Role) : jsstring :=
  match r with
  | RoleSystem => js "system"
  | RoleUser => js "user"
  | RoleAssistant => js "assistant"
  end.

Section NearAI.
Context {P : Platform}.

(** [getAttestation], with the module variable [cachedAttestation] passed in
    and out. *)
Definition getAttestation (net : Transport) (apiKey : jsstring) (now : Z)
  (cachedAttestation : option AttestationReport) (e : entropy)
  : outcome AttestationReport * option AttestationReport * entropy :=
  match cachedAttestation with
  | Some report => (Resolved report, cachedAttestation, e)
  | None =>
      match fetchModelPublicKey net (Some apiKey) now e with
      | (Resolved report, e') => (Resolved report, Some report, e')
      | (Rejected err, e') => (Rejected err, None, e')
      end
  end.

Definition clearAttestationCache : option AttestationReport := None.

Definition buildMessages (history : list ChatMessage) (message : jsstring)
  : list ChatMessage :=
  {| role := RoleSystem; content := SYSTEM_PROMPT |}
  :: map (fun h => {| role := role h; content := content h |}) history
  ++ [{| role := RoleUser; content := message |}].

(** The loop of [streamChat] that replaces the content of each message by
    its encryption. *)
Fixpoint encryptMessages (modelPubKeyHex : jsstring) (clientKeys : E2EEKeys)
  (messages : list ChatMessage) (e : entropy)
  : outcome (list ChatMessage) * entropy :=
  match messages with
  | [] => (Resolved [], e)
  | m :: rest =>
      match encryptMessageWithClientKeys (content m) modelPubKeyHex clientKeys e with
      | (Rejected err, e1) => (Rejected err, e1)
      | (Resolved encrypted, e1) =>
          match encryptMessages modelPubKeyHex clientKeys rest e1 with
          | (Rejected err, e2) => (Rejected err, e2)
          | (Resolved rest', e2) =>
              (Resolved ({| role := role m; content := encrypted |} :: rest'), e2)
          end
      end
  end.

(** What [streamChat] has once the request is ready to be sent. *)
Record PreparedRequest := {
  req_messages : list ChatMessage;
  req_nearHeaders : list (jsstring * jsstring);
  req_clientKeys : option E2EEKeys
}.

Definition prepareRequest (net : Transport) (options : ChatOptions) (now : Z)
  (cachedAttestation : option AttestationReport) (e : entropy)
  : outcome PreparedRequest * option AttestationReport * entropy :=
  let messages := buildMessages (history options) (message options) in
  if useE2EE options then
    match getAttestation net (apiKey options) now cachedAttestation e with
    | (Rejected err, cache, e1) => (Rejected err, cache, e1)
    | (Resolved attestation, cache, e1) =>
        match generateClientKeys e1 with
        | (Rejected err, e2) => (Rejected err, cache, e2)
        | (Resolved clientKeys, e2) =>
            let nearHeaders :=
              [(js "X-Signing-Algo", SIGNING_ALGO);
               (js "X-Client-Pub-Key", publicKeyHex clientKeys);
               (js "X-Model-Pub-Key", signingPublicKey attestation)] in
            match encryptMessages (signingPublicKey attestation) clientKeys messages e2 with
            | (Rejected err, e3) => (Rejected err, cache, e3)
            | (Resolved encrypted, e3) =>
                (Resolved {| req_messages := encrypted;
                             req_nearHeaders := nearHeaders;
                             req_clientKeys := Some clientKeys |}, cache, e3)
            end
        end
    end
  else
    (Resolved {| req_messages := messages; req_nearHeaders := [];
                 req_clientKeys := None |}, cachedAttestation, e).

(** [decryptResponse(delta, key)] for a [delta] that need not be a string:
    anything else has no [startsWith] method. *)
Definition decryptDelta (delta : json) (clientPrivateKey : list byte)
  : outcome jsstring :=
  match delta with
  | JString encryptedHex => decryptResponse encryptedHex clientPrivateKey
  | _ => Rejected TypeError
  end.

(** [fullContent += chunk; onChunk(chunk)] *)
Definition emit (st : StreamState) (chunk : json) : StreamState :=
  {| fullContent := fullContent st ++ toStringJson chunk;
     buffer := buffer st;
     rawResponse := rawResponse st;
     latestChatId := latestChatId st;
     onChunkCalls := onChunkCalls st ++ [chunk];
     onChatIdCalls := onChatIdCalls st |}.

Definition deliver (useE2EE : bool) (clientKeys : option E2EEKeys)
  (st : StreamState) (delta : json) : StreamState :=
  match useE2EE, clientKeys with
  | true, Some keys =>
      match decryptDelta delta (privateKey keys) with
      | Resolved decrypted => emit st (JString decrypted)
      | Rejected _ => emit st delta
      end
  | _, _ => emit st delta
  end.

(** [latestChatId = parsed.id; onChatId(parsed.id)] *)
Definition noteChatId (st : StreamState) (chatId : json) : StreamState :=
  {| fullContent := fullContent st;
     buffer := buffer st;
     rawResponse := rawResponse st;
     latestChatId := chatId;
     onChunkCalls := onChunkCalls st;
     onChatIdCalls := onChatIdCalls st ++ [chatId] |}.

(** [parsed.choices?.[0]?.delta?.content] *)
Definition deltaOf (parsed : json) : value :=
  getPropOpt (getPropOpt (getFirstOpt (member parsed (js "choices"))) "delta") "content".

(** The body of the loop over the complete lines of the buffer. *)
Definition processLine (useE2EE : bool) (clientKeys : option E2EEKeys)
  (hasOnChatId : bool) (st : StreamState) (line : jsstring) : StreamState :=
  let trimmed := trim line in
  if negb (startsWith trimmed (js "data: ")) then st else
  let data := slice_from 6 trimmed in
  if str_eqb data (js "[DONE]") then st else
  match JSON_parse_value data with
  | None => st                       (* skip malformed SSE lines *)
  | Some JNull => st                 (* a property read on null: skipped too *)
  | Some parsed =>
      let st1 :=
        match member parsed (js "id") with
        | Some chatId =>
            if hasOnChatId && truthy (Some chatId) then noteChatId st chatId else st
        | None => st
        end in
      match deltaOf parsed with
      | Some delta =>
          if negb (truthy (Some delta)) then st1
          else deliver useE2EE clientKeys st1 delta
      | None => st1
      end
  end.

(** One turn of the read loop, for one piece of decoded text. *)
Definition readChunk (useE2EE : bool) (clientKeys : option E2EEKeys)
  (hasOnChatId : bool) (st : StreamState) (decodedChunk : jsstring) : StreamState :=
  let lines := split 10 (buffer st ++ decodedChunk) in
  let st1 :=
    {| fullContent := fullContent st;
       buffer := last lines [];
       rawResponse := rawResponse st ++ decodedChunk;
       latestChatId := latestChatId st;
       onChunkCalls := onChunkCalls st;
       onChatIdCalls := onChatIdCalls st |} in
  fold_left (processLine useE2EE clientKeys hasOnChatId) (removelast lines) st1.

Definition initialStreamState : StreamState :=
  {| fullContent := []; buffer := []; rawResponse := [];
     latestChatId := JString []; onChunkCalls := []; onChatIdCalls := [] |}.

Definition readAll (useE2EE : bool) (clientKeys : option E2EEKeys)
  (hasOnChatId : bool) (stream : list jsstring) : StreamState :=
  fold_left (readChunk useE2EE clientKeys hasOnChatId) stream initialStreamState.

Definition buildVerification (net : Transport) (chatId : json)
  (requestHash responseHash : jsstring) (apiKey : jsstring)
  : outcome ChatVerificationResult :=
  signature <- fetchChatSignature net (toStringJson chatId) (Some apiKey) ;;
  let expected := requestHash ++ js ":" ++ responseHash in
  let textMatches :=
    match signature with
    | Some s => strictEqualsString (sig_text s) expected
    | None => false
    end in
  Resolved {|
    ver_chatId := chatId;
    ver_requestHash := requestHash;
    ver_responseHash := responseHash;
    signatureFetched := match signature with Some _ => true | None => false end;
    signatureTextMatches := textMatches;
    ver_signature := signature
  |}.

Definition streamChat (net : Transport) (options : ChatOptions) (now : Z)
  (cachedAttestation : option AttestationReport) (e : entropy)
  : outcome StreamResult * option AttestationReport * entropy :=
  match prepareRequest net options now cachedAttestation e with
  | (Rejected err, cache, e1) => (Rejected err, cache, e1)
  | (Resolved request, cache, e1) =>
      let wireMessages :=
        map (fun m => (roleName (role m), content m)) (req_messages request) in
      let requestHash := sha256Hex (JSON_stringify_request wireMessages) in
      (res <- orThrow NetworkError
                (chatEndpoint net (req_messages request) (req_nearHeaders request)
                   (apiKeyHeader (Some (apiKey options)))) ;;
       if negb (chat_ok res) then Rejected (NearApiError (chat_status res)) else
       stream <- orThrow NoResponseStream (chat_stream res) ;;
       let st := readAll (useE2EE options) (req_clientKeys request)
                   (hasOnChatId options) stream in
       verification <-
         (if truthy (Some (latestChatId st))
          then v <- buildVerification net (latestChatId st) requestHash
                      (sha256Hex (rawResponse st)) (apiKey options) ;;
               Resolved (Some v)
          else Resolved None) ;;
       Resolved {|
         res_content := fullContent st;
         res_chatId :=
           if truthy (Some (latestChatId st)) then Some (latestChatId st) else None;
         res_verification := verification;
         res_onChunkCalls := onChunkCalls st;
         res_onChatIdCalls := onChatIdCalls st
       |},
       cache, e1)
  end.

End NearAI.

(* ================================================================== *)
(** * lib/storage: the encrypted vault *)

Definition PBKDF2_ITERATIONS : Z := 210000.

Record EncryptedConversationRecord := {
  rec_id : jsstring;
  rec_createdAt : Z;
  payload : jsstring;
  iv : jsstring;
  salt : jsstring;
  rec_v : Z
}.

(** What the object store holds: records written by [saveConversation], and
    conversations an earlier version stored in the clear. *)
Inductive StoredItem :=
| StoredPlain (c : Conversation)
| StoredEncrypted (r : EncryptedConversationRecord).

(** The key path of the object store is ["id"]. *)
Definition itemKey (item : StoredItem) : jsstring :=
  match item with
  | StoredPlain c => id c
  | StoredEncrypted r => rec_id r
  end.

(** Keys are ordered code unit by code unit. *)
Fixpoint str_compare (s t : jsstring) : comparison :=
  match s, t with
  | [], [] => Eq
  | [], _ :: _ => Lt
  | _ :: _, [] => Gt
  | c :: s', d :: t' =>
      match c ?= d with
      | Eq => str_compare s' t'
      | o => o
      end
  end.

(** The object store, in key order. *)
Definition ObjectStore := list StoredItem.

(** [objectStore.put(item)]: a record with the same key is replaced. *)
Fixpoint put (item : StoredItem) (store : ObjectStore) : ObjectStore :=
  match store with
  | [] => [item]
  | x :: rest =>
      match str_compare (itemKey item) (itemKey x) with
      | Lt => item :: store
      | Eq => item :: rest
      | Gt => x :: put item rest
      end
  end.

Definition getAll (store : ObjectStore) : list StoredItem := store.


Definition clear (store : ObjectStore) : ObjectStore := [].

(** [isLegacyConversation]: a string [id], a number [createdAt] and an array
    [messages]; an encrypted record has no [messages]. *)
Definition isLegacyConversation (item : StoredItem) : bool :=
  match item with
  | StoredPlain _ => true
  | StoredEncrypted _ => false
  end.

(** [Promise.all]: every call runs; the result is the list of results, or
    a rejection when one of them rejects (the first of the list stands for
    the first to be reported). *)
Fixpoint Promise_all {A} (calls : list (outcome A)) : outcome (list A) :=
  match calls with
  | [] => Resolved []
  | c :: rest =>
      match c, Promise_all rest with
      | Resolved a, Resolved others => Resolved (a :: others)
      | Rejected e, _ => Rejected e
      | _, Rejected e => Rejected e
      end
  end.

(** [array.sort(compare)]: a stable sort, where [compare a b <= 0] keeps [a]
    before [b]. *)
Fixpoint insertSorted {A} (compare : A -> A -> Z) (a : A) (sorted : list A) : list A :=
  match sorted with
  | [] => [a]
  | b :: rest =>
      if compare a b <=? 0 then a :: sorted
      else b :: insertSorted compare a rest
  end.

Fixpoint Array_sort {A} (compare : A -> A -> Z) (l : list A) : list A :=
  match l with
  | [] => []
  | a :: rest => insertSorted compare a (Array_sort compare rest)
  end.

(** Newest first: each conversation is at least as recent as the next. *)
Definition newestFirst (a b : Conversation) : Prop := createdAt b <= createdAt a.

(** [!passphrase] *)
Definition isEmptyString (s : jsstring) : bool := Nat.eqb (length s) 0.

Section Storage.
Context {P : Platform}.

(** The string built with [String.fromCharCode] byte by byte, then [btoa]. *)
Definition bytesToBase64 (bytes : list byte) : option jsstring :=
  btoa (map byte_to_Z bytes).

(** [atob], then [charCodeAt] stored into a [Uint8Array]. *)
Definition base64ToBytes (base64 : jsstring) : option (list byte) :=
  option_map (map ToUint8) (atob base64).

Definition deriveAesKey (passphrase : jsstring) (salt : list byte) : list byte :=
  pbkdf2 (TextEncoder_encode passphrase) salt PBKDF2_ITERATIONS.

Definition encryptConversation (conversation : Conversation) (passphrase : jsstring)
  (e : entropy) : outcome EncryptedConversationRecord * entropy :=
  let (salt, e1) := getRandomValues 16 e in
  let (iv, e2) := getRandomValues 12 e1 in
  let key := deriveAesKey passphrase salt in
  let plaintext := TextEncoder_encode (JSON_stringify conversation) in
  (encrypted <- orThrow OperationError (aesGcmEncrypt key iv plaintext) ;;
   payload64 <- orThrow InvalidCharacterError (bytesToBase64 encrypted) ;;
   iv64 <- orThrow InvalidCharacterError (bytesToBase64 iv) ;;
   salt64 <- orThrow InvalidCharacterError (bytesToBase64 salt) ;;
   Resolved {| rec_id := id conversation;
               rec_createdAt := createdAt conversation;
               payload := payload64;
               iv := iv64;
               salt := salt64;
               rec_v := 1 |},
   e2).

Definition decryptConversation (record : EncryptedConversationRecord)
  (passphrase : jsstring) : outcome Conversation :=
  salt <- orThrow InvalidCharacterError (base64ToBytes (salt record)) ;;
  iv <- orThrow InvalidCharacterError (base64ToBytes (iv record)) ;;
  encrypted <- orThrow InvalidCharacterError (base64ToBytes (payload record)) ;;
  let key := deriveAesKey passphrase salt in
  plaintext <- orThrow OperationError (aesGcmDecrypt key iv encrypted) ;;
  orThrow SyntaxError (JSON_parse (TextDecoder_decode plaintext)).

Definition saveConversation (conversation : Conversation) (passphrase : jsstring)
  (store : ObjectStore) (e : entropy) : outcome unit * ObjectStore * entropy :=
  if isEmptyString passphrase then (Rejected VaultLocked, store, e) else
  match encryptConversation conversation passphrase e with
  | (Rejected err, e') => (Rejected err, store, e')
  | (Resolved record, e') => (Resolved tt, put (StoredEncrypted record) store, e')
  end.

(** The call made for each stored item. *)
Definition loadItem (passphrase : jsstring) (item : StoredItem) : outcome Conversation :=
  match item with
  | StoredPlain c => Resolved c
  | StoredEncrypted r => decryptConversation r passphrase
  end.

Definition getAllConversations (passphrase : jsstring) (store : ObjectStore)
  : outcome (list Conversation) :=
  if isEmptyString passphrase then Resolved [] else
  let records := getAll store in
  decrypted <- Promise_all (map (loadItem passphrase) records) ;;
  Resolved (Array_sort (fun a b => createdAt b - createdAt a) decrypted).


Definition deleteAllConversations (store : ObjectStore) : ObjectStore :=
  clear store.

End Storage.

(* ================================================================== *)
(** * app/page.tsx: retention *)






(* ================================================================== *)
(** * A small platform

    An instance of [Platform] made of simple functions, on which the program
    can be run on concrete inputs, and which shows that the laws assumed of
    the platform in the theorems below can be met together.  It is no
    cryptography: the "public key" is two copies of the secret. *)

Module Demo.

Definition zeros (n : nat) : list byte := repeat x00 n.

Fixpoint bytes_eqb (a b : list byte) : bool :=
  match a, b with
  | [], [] => true
  | x :: a', y :: b' => Byte.eqb x y && bytes_eqb a' b'
  | _, _ => false
  end.

Definition mix (ab : byte * byte) : byte :=
  ToUint8 (byte_to_Z (fst ab) + byte_to_Z (snd ab)).

Definition getPublicKey (sk : list byte) : option (list byte) :=
  if Nat.eqb (length sk) 32 then Some (x04 :: sk ++ sk) else None.

Definition getSharedSecret (sk pk : list byte) : option (list byte) :=
  match pk with
  | x04 :: point =>
      if Nat.eqb (length sk) 32 && Nat.eqb (length point) 64
      then Some (x04 :: map mix (combine sk (firstn 32 point)) ++ zeros 32)
      else None
  | _ => None
  end.

Definition hkdf (ikm info : list byte) (len : nat) : list byte :=
  firstn len (ikm ++ info ++ zeros len).

Definition sha256 (data : list byte) : list byte :=
  firstn 32 (data ++ zeros 32).

Definition pbkdf2 (password salt : list byte) (iterations : Z) : list byte :=
  firstn 32 (password ++ salt ++ zeros 32).

Definition tag (key : list byte) : list byte := firstn 16 key.

Definition aesGcmEncrypt (key iv data : list byte) : option (list byte) :=
  if Nat.eqb (length key) 32 then Some (data ++ tag key) else None.

Definition aesGcmDecrypt (key iv data : list byte) : option (list byte) :=
  if Nat.eqb (length key) 32 && Nat.leb 16 (length data)
     && bytes_eqb (skipn (length data - 16) data) (tag key)
  then Some (firstn (length data - 16) data)
  else None.

Definition btoa (s : jsstring) : option jsstring :=
  if forallb (fun c => (0 <=? c) && (c <? 256)) s then Some s else None.

Definition atob (s : jsstring) : option jsstring := Some s.

(** A conversation is written as its creation time followed by its id. *)
Definition JSON_stringify (c : Conversation) : jsstring := createdAt c :: id c.

Definition JSON_parse (s : jsstring) : option Conversation :=
  match s with
  | t :: name =>
      Some {| id := name; title := []; messages := []; createdAt := t;
              retentionHours := None; expiresAt := None; plans := None |}
  | [] => None
  end.

(** Every text is read as a stream event whose delta is the text itself. *)
Definition JSON_parse_value (s : jsstring) : option json :=
  Some (JObject [(js "choices",
    JArray [JObject [(js "delta", JObject [(js "content", JString s)])]])]).

Definition JSON_stringify_request (messages : list (jsstring * jsstring)) : jsstring :=
  flat_map (fun m => fst m ++ snd m) messages.

Definition toLowerCase (s : jsstring) : jsstring :=
  map (fun c => if (65 <=? c) && (c <=? 90) then c + 32 else c) s.

Definition platform : Platform :=
  Build_Platform (getRandomValues 32) getPublicKey getSharedSecret hkdf sha256
    pbkdf2 aesGcmEncrypt aesGcmDecrypt btoa atob JSON_stringify JSON_parse
    JSON_parse_value JSON_stringify_request toLowerCase.

(** The random source that delivers 0, 1, 2, ... *)
Definition counting : entropy := fun i => ToUint8 (Z.of_nat i).

(** An enclave whose attestation carries the key [key] and echoes the nonce
    of the request when [echo] is set, and which signs [text] for every chat. *)
Definition transport (key : json) (echo : bool) (text : jsstring) : Transport :=
  {| attestationEndpoint := fun nonce _ =>
       Some {| ok := true; status := 200;
               json_body := Some (JObject
                 [(js "model_attestations",
                   JArray [JObject [(js "signing_public_key", key);
                                    (js "signing_algo", JString (js "ecdsa"))]]);
                  (js "request_nonce", JString (if echo then nonce else js "none"))]) |};
     signatureEndpoint := fun chatId _ =>
       Some {| ok := true; status := 200;
               json_body := Some (JObject
                 [(js "text", JString text);
                  (js "signature", JString (js "0xsigned"));
                  (js "signing_address", JString (js "0xaddress"));
                  (js "signing_algo", JString (js "ecdsa"))]) |};
     chatEndpoint := fun _ _ _ =>
       Some {| chat_ok := true; chat_status := 200; chat_stream := Some [] |} |}.

(** An enclave that answers the attestation request with [body], and has no
    signature record for any chat. *)
Definition replying (body : option json) : Transport :=
  {| attestationEndpoint := fun _ _ =>
       Some {| ok := true; status := 200; json_body := body |};
     signatureEndpoint := fun _ _ =>
       Some {| ok := false; status := 404; json_body := None |};
     chatEndpoint := fun _ _ _ =>
       Some {| chat_ok := true; chat_status := 200; chat_stream := Some [] |} |}.

(** A signing key of the expected form: 128 hexadecimal characters. *)
Definition signingKey : jsstring := bytesToHex (repeat xab 64).

(** An enclave with that key, which echoes the nonce. *)
Definition enclave : Transport := transport (JString signingKey) true [].

(** A first message, end-to-end encrypted. *)
Definition options : ChatOptions :=
  {| apiKey := js "key"; message := js "hello"; history := [];
     useE2EE := true; hasOnChatId := false |}.

(** A conversation the serialisation above gives back. *)
Definition conversation : Conversation :=
  {| id := js "c1"; title := []; messages := []; createdAt := 1000;
     retentionHours := None; expiresAt := None; plans := None |}.

(** The vault after that conversation was saved under ["correct"]. *)
Definition vault : ObjectStore :=
  snd (fst (@saveConversation platform conversation (js "correct") [] counting)).

Definition keysOf (sk : list byte) : E2EEKeys :=
  {| publicKeyHex := bytesToHex (x04 :: sk ++ sk); privateKey := sk |}.

(** The keys of a client and of a model. *)
Definition clientKeys : E2EEKeys := keysOf (fst (getRandomValues 32 counting)).
Definition modelKeys : E2EEKeys := keysOf (repeat x07 32).

End Demo.

(* ================================================================== *)
(** * Notions used to state further properties *)

(** A digit or a letter [a]-[f]: what [bytesToHex] writes. *)
Definition isLowerHexChar (c : Z) : bool :=
  ((48 <=? c) && (c <=? 57)) || ((97 <=? c) && (c <=? 102)).

(** The upper-case form of a hexadecimal digit. *)
Definition upperHexChar (c : Z) : Z :=
  if (97 <=? c) && (c <=? 102) then c - 32 else c.
(* ================================================================== *)
(** * Lemmas on bytes and hexadecimal text *)

Lemma byte_to_Z_range (b : byte) : 0 <= byte_to_Z b < 256.
Proof.
  unfold byte_to_Z. pose proof (Byte.to_N_bounded b). lia.
Qed.

Lemma ToUint8_byte_to_Z (b : byte) : ToUint8 (byte_to_Z b) = b.
Proof.
  unfold ToUint8. pose proof (byte_to_Z_range b) as R.
  rewrite Z.mod_small by exact R.
  unfold byte_to_Z. rewrite N2Z.id, Byte.of_to_N. reflexivity.
Qed.

Lemma byte_to_Z_ToUint8 (z : Z) : 0 <= z < 256 -> byte_to_Z (ToUint8 z) = z.
Proof.
  intros R. unfold ToUint8. rewrite Z.mod_small by exact R.
  destruct (Byte.of_N (Z.to_N z)) as [b|] eqn:E.
  - apply Byte.to_of_N in E. unfold byte_to_Z. rewrite E. lia.
  - apply Byte.of_N_None_iff in E. lia.
Qed.

Lemma str_eqb_refl (s : jsstring) : str_eqb s s = true.
Proof.
  induction s as [|c s IH]; simpl; [reflexivity|].
  rewrite Z.eqb_refl, IH. reflexivity.
Qed.

Lemma str_eqb_eq (s t : jsstring) : str_eqb s t = true <-> s = t.
Proof.
  split.
  - revert t. induction s as [|c s IH]; intros [|d t]; simpl; try discriminate; auto.
    intros H. apply andb_prop in H as [H1 H2].
    apply Z.eqb_eq in H1. apply IH in H2. congruence.
  - intros ->. apply str_eqb_refl.
Qed.

(** Case analysis on every integer comparison of the goal. *)
Ltac zcases :=
  repeat match goal with
  | |- context [?a <=? ?b] => destruct (Z.leb_spec a b)
  | |- context [?a <? ?b] => destruct (Z.ltb_spec a b)
  | |- context [?a =? ?b] => destruct (Z.eqb_spec a b)
  end;
  cbn [andb orb negb]; try lia.

Lemma hexDigitValue_char (d : Z) :
  0 <= d < 16 -> hexDigitValue (hexDigitChar d) = Some d.
Proof.
  intros R. unfold hexDigitChar, hexDigitValue.
  zcases; f_equal; lia.
Qed.

Lemma hexDigitChar_cases (d : Z) :
  0 <= d < 16 ->
  48 <= hexDigitChar d <= 57 \/ 97 <= hexDigitChar d <= 102.
Proof.
  intros R. unfold hexDigitChar. destruct (d <? 10) eqn:E.
  - apply Z.ltb_lt in E. lia.
  - apply Z.ltb_ge in E. lia.
Qed.

Lemma hexDigitChar_not_special (d : Z) :
  0 <= d < 16 ->
  isWhiteSpace (hexDigitChar d) = false /\
  (hexDigitChar d =? 45) = false /\ (hexDigitChar d =? 43) = false /\
  (hexDigitChar d =? 120) = false /\ (hexDigitChar d =? 88) = false.
Proof.
  intros R. pose proof (hexDigitChar_cases R) as C.
  unfold isWhiteSpace.
  repeat match goal with
  | |- _ /\ _ => split
  | |- context [?a =? ?b] =>
      replace (a =? b) with false by (symmetry; apply Z.eqb_neq; lia)
  | |- context [?a <=? ?b] =>
      replace (a <=? b) with false by (symmetry; apply Z.leb_gt; lia)
  end; reflexivity.
Qed.

Lemma parseInt16_byteToHex (b : byte) :
  storeNumber (parseInt16 (byteToHex b)) = b.
Proof.
  pose proof (byte_to_Z_range b) as R.
  assert (Rh : 0 <= byte_to_Z b / 16 < 16)
    by (split; [apply Z.div_pos; lia | apply Z.div_lt_upper_bound; lia]).
  assert (Rl : 0 <= byte_to_Z b mod 16 < 16) by (apply Z.mod_pos_bound; lia).
  destruct (hexDigitChar_not_special Rh) as (W & M & P & X & X').
  destruct (hexDigitChar_not_special Rl) as (_ & _ & _ & Xl & Xl').
  unfold byteToHex, parseInt16.
  simpl dropWhiteSpace. rewrite W.
  unfold startsWith; simpl.
  rewrite M, P; simpl. rewrite Xl, Xl'.
  rewrite !andb_false_r; simpl.
  rewrite (hexDigitValue_char Rh), (hexDigitValue_char Rl). simpl.
  replace (1 * (16 * (16 * 0 + byte_to_Z b / 16) + byte_to_Z b mod 16))
    with (byte_to_Z b) by (pose proof (Z.div_mod (byte_to_Z b) 16); lia).
  apply ToUint8_byte_to_Z.
Qed.

Lemma hexPairs_bytesToHex (bytes : list byte) :
  hexPairs (bytesToHex bytes) = bytes.
Proof.
  induction bytes as [|b bs IH]; [reflexivity|].
  change (bytesToHex (b :: bs)) with (byteToHex b ++ bytesToHex bs).
  unfold byteToHex at 1. cbn [app hexPairs].
  fold (byteToHex b). rewrite parseInt16_byteToHex, IH. reflexivity.
Qed.

Lemma stripHexPrefix_bytesToHex (bytes : list byte) :
  stripHexPrefix (bytesToHex bytes) = bytesToHex bytes.
Proof.
  unfold stripHexPrefix.
  destruct bytes as [|b bs]; [reflexivity|].
  change (bytesToHex (b :: bs)) with (byteToHex b ++ bytesToHex bs).
  pose proof (byte_to_Z_range b) as R.
  assert (Rl : 0 <= byte_to_Z b mod 16 < 16) by (apply Z.mod_pos_bound; lia).
  destruct (hexDigitChar_not_special Rl) as (_ & _ & _ & Xl & _).
  unfold startsWith, byteToHex. simpl. rewrite Xl, andb_false_r. reflexivity.
Qed.

(** Decoding the hexadecimal text of a byte sequence gives it back. *)
Lemma hexToBytes_bytesToHex (bytes : list byte) :
  hexToBytes (bytesToHex bytes) = bytes.
Proof.
  unfold hexToBytes. rewrite stripHexPrefix_bytesToHex.
  apply hexPairs_bytesToHex.
Qed.

Lemma length_bytesToHex (bytes : list byte) :
  length (bytesToHex bytes) = (2 * length bytes)%nat.
Proof.
  induction bytes as [|b bs IH]; [reflexivity|].
  change (bytesToHex (b :: bs)) with (byteToHex b ++ bytesToHex bs).
  rewrite length_app, IH. simpl. lia.
Qed.

Lemma bytesToHex_app (a b : list byte) :
  bytesToHex (a ++ b) = bytesToHex a ++ bytesToHex b.
Proof. unfold bytesToHex. apply flat_map_app. Qed.

Lemma normalizePubKey_bytesToHex (pk : list byte) :
  length pk = 65%nat -> normalizePubKey (bytesToHex pk) = pk.
Proof.
  intros L. unfold normalizePubKey.
  rewrite stripHexPrefix_bytesToHex, hexToBytes_bytesToHex, L. reflexivity.
Qed.


(* ================================================================== *)
(** * UTF-8: encoding then decoding *)

(** Case analysis on one integer comparison of the goal at a time, dropping
    the cases that contradict the hypotheses. *)
Ltac zsplit1 :=
  match goal with
  | |- context [?a <=? ?b] => destruct (Z.leb_spec a b)
  | |- context [?a <? ?b] => destruct (Z.ltb_spec a b)
  | |- context [?a =? ?b] => destruct (Z.eqb_spec a b)
  end;
  try (exfalso; lia); cbn [andb orb negb]; cbv iota.
Ltac zsplit := repeat zsplit1.

Lemma utf8Decode_cons (st : utf8State) (b : byte) (rest : list byte) :
  utf8Decode st (b :: rest) =
  snd (utf8Step st (byte_to_Z b)) ++ utf8Decode (fst (utf8Step st (byte_to_Z b))) rest.
Proof. simpl. destruct (utf8Step st (byte_to_Z b)); reflexivity. Qed.

Lemma utf8Step_continue (st : utf8State) (b : Z) :
  bytesNeeded st <> 0 -> lowerBoundary st <= b <= upperBoundary st ->
  utf8Step st b =
  if bytesSeen st + 1 =? bytesNeeded st
  then (utf8Initial, [codePoint st * 0x40 + (b - 0x80)])
  else ({| codePoint := codePoint st * 0x40 + (b - 0x80);
           bytesSeen := bytesSeen st + 1; bytesNeeded := bytesNeeded st;
           lowerBoundary := 0x80; upperBoundary := 0xBF |}, []).
Proof.
  intros N B. unfold utf8Step.
  destruct (Z.eqb_spec (bytesNeeded st) 0); [contradiction|].
  destruct (Z.ltb_spec b (lowerBoundary st)); [lia|].
  destruct (Z.ltb_spec (upperBoundary st) b); [lia|].
  reflexivity.
Qed.

(** Runs the decoder over the continuation bytes of one sequence. *)
Ltac utf8_run :=
  repeat (first [ rewrite utf8Step_continue
                    by (cbn [bytesNeeded lowerBoundary upperBoundary]; lia)
                | zsplit1 ];
          cbn [fst snd app bytesSeen bytesNeeded codePoint lowerBoundary upperBoundary]);
  f_equal; lia.

Lemma utf8Step_initial (b : Z) : utf8Step utf8Initial b = utf8Lead b.
Proof. reflexivity. Qed.

(** One scalar value, written in UTF-8 and read back. *)
Lemma utf8Decode_encodeScalar (cp : Z) (rest : list byte) :
  isScalarValue cp = true ->
  utf8Decode utf8Initial (utf8EncodeScalar cp ++ rest) =
  cp :: utf8Decode utf8Initial rest.
Proof.
  unfold isScalarValue. intros S.
  apply andb_prop in S as [S S3]. apply andb_prop in S as [S1 S2].
  apply Z.leb_le in S1. apply Z.ltb_lt in S2. apply negb_true_iff in S3.
  assert (Sur : cp < 0xD800 \/ 0xDFFF < cp).
  { destruct (Z.leb_spec 0xD800 cp), (Z.leb_spec cp 0xDFFF); simpl in S3;
      try discriminate; lia. }
  clear S3.
  unfold utf8EncodeScalar.
  destruct (Z.ltb_spec cp 0x80) as [C1|C1].
  { (* one byte *)
    cbn [app]. rewrite utf8Decode_cons, byte_to_Z_ToUint8 by lia.
    rewrite utf8Step_initial. unfold utf8Lead.
    zsplit. reflexivity. }
  destruct (Z.ltb_spec cp 0x800) as [C2|C2].
  { (* two bytes *)
    pose proof (Z.div_mod cp 0x40 ltac:(lia)) as D.
    pose proof (Z.mod_pos_bound cp 0x40 ltac:(lia)) as M.
    set (q := cp / 0x40) in *. set (r := cp mod 0x40) in *.
    cbn [app]. rewrite !utf8Decode_cons, !byte_to_Z_ToUint8 by lia.
    rewrite utf8Step_initial. unfold utf8Lead.
    utf8_run. }
  destruct (Z.ltb_spec cp 0x10000) as [C3|C3].
  { (* three bytes *)
    pose proof (Z.div_mod cp 0x1000 ltac:(lia)) as D1.
    pose proof (Z.div_mod cp 0x40 ltac:(lia)) as D2.
    pose proof (Z.div_mod (cp / 0x40) 0x40 ltac:(lia)) as D3.
    pose proof (Z.mod_pos_bound cp 0x40 ltac:(lia)) as M2.
    pose proof (Z.mod_pos_bound (cp / 0x40) 0x40 ltac:(lia)) as M3.
    assert (Q : cp / 0x1000 = cp / 0x40 / 0x40)
      by (rewrite Z.div_div by lia; reflexivity).
    set (a := cp / 0x1000) in *. set (q := cp / 0x40) in *.
    set (r := cp mod 0x40) in *. set (m := q mod 0x40) in *.
    cbn [app]. rewrite !utf8Decode_cons, !byte_to_Z_ToUint8 by lia.
    rewrite utf8Step_initial. unfold utf8Lead.
    utf8_run. }
  { (* four bytes *)
    pose proof (Z.div_mod cp 0x40 ltac:(lia)) as D2.
    pose proof (Z.div_mod (cp / 0x40) 0x40 ltac:(lia)) as D3.
    pose proof (Z.div_mod (cp / 0x1000) 0x40 ltac:(lia)) as D4.
    pose proof (Z.mod_pos_bound cp 0x40 ltac:(lia)) as M2.
    pose proof (Z.mod_pos_bound (cp / 0x40) 0x40 ltac:(lia)) as M3.
    pose proof (Z.mod_pos_bound (cp / 0x1000) 0x40 ltac:(lia)) as M4.
    assert (Q : cp / 0x1000 = cp / 0x40 / 0x40)
      by (rewrite Z.div_div by lia; reflexivity).
    assert (Q' : cp / 0x40000 = cp / 0x1000 / 0x40)
      by (rewrite Z.div_div by lia; reflexivity).
    set (t := cp / 0x40000) in *. set (a := cp / 0x1000) in *.
    set (q := cp / 0x40) in *. set (r := cp mod 0x40) in *.
    set (m := q mod 0x40) in *. set (n := a mod 0x40) in *.
    cbn [app]. rewrite !utf8Decode_cons, !byte_to_Z_ToUint8 by lia.
    rewrite utf8Step_initial. unfold utf8Lead.
    utf8_run. }
Qed.

Lemma utf8Decode_encode (cps : list Z) :
  forallb isScalarValue cps = true ->
  utf8Decode utf8Initial (flat_map utf8EncodeScalar cps) = cps.
Proof.
  induction cps as [|cp cps IH]; intros F; [reflexivity|].
  cbn [forallb] in F. apply andb_prop in F as [F1 F2].
  cbn [flat_map]. rewrite utf8Decode_encodeScalar by exact F1.
  rewrite IH by exact F2. reflexivity.
Qed.

(** Induction on a list that may look one element further ahead. *)
Lemma list_ind_ahead {A} (P : list A -> Prop) :
  P [] ->
  (forall a l, P l -> (forall b l', l = b :: l' -> P l') -> P (a :: l)) ->
  forall l, P l.
Proof.
  intros H0 Hs l.
  enough (H : P l /\ (forall b l', l = b :: l' -> P l')) by apply H.
  induction l as [|a l [IH1 IH2]].
  - split; [exact H0 | discriminate].
  - split; [apply Hs; assumption|].
    intros b l' E. injection E as -> ->. exact IH1.
Qed.

Lemma surrogate_tests (c : Z) :
  (isHighSurrogate c = true <-> 0xD800 <= c <= 0xDBFF) /\
  (isLowSurrogate c = true <-> 0xDC00 <= c <= 0xDFFF).
Proof.
  unfold isHighSurrogate, isLowSurrogate.
  rewrite !andb_true_iff, !Z.leb_le. tauto.
Qed.

Lemma isScalarValue_iff (cp : Z) :
  isScalarValue cp = true <-> 0 <= cp < 0x110000 /\ (cp < 0xD800 \/ 0xDFFF < cp).
Proof.
  unfold isScalarValue.
  rewrite !andb_true_iff, negb_true_iff, andb_false_iff, Z.leb_le, Z.ltb_lt,
    !Z.leb_gt. tauto.
Qed.

(** A well-formed string is the UTF-16 form of its scalar values. *)
Lemma toScalarValues_wellFormed (s : jsstring) :
  isWellFormed s = true ->
  forallb isScalarValue (toScalarValues s) = true /\
  flat_map codePointToUnits (toScalarValues s) = s /\
  (startsWithBOM s = false -> dropBOM (toScalarValues s) = toScalarValues s).
Proof.
  induction s as [|c rest IH1 IH2] using list_ind_ahead; intros W.
  { repeat split; reflexivity. }
  cbn [isWellFormed toScalarValues] in *.
  destruct (isHighSurrogate c) eqn:Hc.
  - destruct rest as [|d rest']; [discriminate|].
    apply andb_prop in W as [Hd W]. rewrite Hd.
    destruct (IH2 d rest' eq_refl W) as (F & U & _).
    apply surrogate_tests in Hc. apply surrogate_tests in Hd.
    cbn [forallb flat_map dropBOM startsWithBOM].
    repeat split.
    + rewrite F, andb_true_r. apply isScalarValue_iff. lia.
    + rewrite U. unfold codePointToUnits.
      destruct (Z.ltb_spec (0x10000 + (c - 0xD800) * 0x400 + (d - 0xDC00)) 0x10000);
        [lia|].
      cbn [app]. f_equal; [|f_equal]; Z.div_mod_to_equations; lia.
    + intros B. destruct (Z.eqb_spec c 0xFEFF); [discriminate|].
      destruct (Z.eqb_spec (0x10000 + (c - 0xD800) * 0x400 + (d - 0xDC00)) 0xFEFF);
        [lia | reflexivity].
  - destruct (isLowSurrogate c) eqn:Lc; [discriminate|].
    cbn [negb andb] in W.
    apply andb_prop in W as [W Wr]. apply andb_prop in W as [C0 C1].
    apply Z.leb_le in C0. apply Z.leb_le in C1.
    destruct (IH1 Wr) as (F & U & _).
    assert (Hn : ~ 0xD800 <= c <= 0xDBFF)
      by (intros X; apply surrogate_tests in X; congruence).
    assert (Ln : ~ 0xDC00 <= c <= 0xDFFF)
      by (intros X; apply surrogate_tests in X; congruence).
    cbn [forallb flat_map dropBOM startsWithBOM].
    repeat split.
    + rewrite F, andb_true_r. apply isScalarValue_iff. lia.
    + rewrite U. unfold codePointToUnits.
      destruct (Z.ltb_spec c 0x10000); [reflexivity | lia].
    + intros B. rewrite B. reflexivity.
Qed.

(** What [TextEncoder] writes, [TextDecoder] reads back unchanged, for a
    well-formed string that does not begin with a byte order mark. *)
Lemma TextDecoder_decode_encode (s : jsstring) :
  isWellFormed s = true -> startsWithBOM s = false ->
  TextDecoder_decode (TextEncoder_encode s) = s.
Proof.
  intros W B. destruct (toScalarValues_wellFormed s W) as (F & U & D).
  unfold TextDecoder_decode, TextEncoder_encode.
  rewrite utf8Decode_encode by exact F.
  rewrite D by exact B. exact U.
Qed.

(** A leading byte order mark does not survive, nor does a lone surrogate. *)
Example TextDecoder_drops_BOM :
  TextDecoder_decode (TextEncoder_encode (0xFEFF :: js "hello")) = js "hello".
Proof. vm_compute. reflexivity. Qed.

Example TextEncoder_replaces_lone_surrogate :
  TextDecoder_decode (TextEncoder_encode [0xD83D]) = [0xFFFD].
Proof. vm_compute. reflexivity. Qed.

Example TextEncoder_hello :
  TextEncoder_encode (js "hello") = [x68; x65; x6c; x6c; x6f].
Proof. vm_compute. reflexivity. Qed.

Example TextCodec_astral :
  TextEncoder_encode [0xD83D; 0xDE00] = [xf0; x9f; x98; x80] /\
  TextDecoder_decode [xf0; x9f; x98; x80] = [0xD83D; 0xDE00].
Proof. vm_compute. split; reflexivity. Qed.

(* ================================================================== *)
(** * The message cipher *)

Lemma length_getRandomValues (n : nat) (e : entropy) :
  length (fst (getRandomValues n e)) = n.
Proof. unfold getRandomValues. cbn [fst]. rewrite length_map, length_seq. reflexivity. Qed.

Lemma firstn_exact {A} (n : nat) (a b : list A) :
  length a = n -> firstn n (a ++ b) = a.
Proof.
  intros <-. rewrite firstn_app, firstn_all, Nat.sub_diag. apply app_nil_r.
Qed.

Lemma skipn_exact {A} (n : nat) (a b : list A) :
  length a = n -> skipn n (a ++ b) = b.
Proof.
  intros <-. rewrite skipn_app, skipn_all, Nat.sub_diag. reflexivity.
Qed.

Lemma slices_of_blob {A} (pub nonce rest : list A) :
  length pub = 65%nat -> length nonce = 12%nat ->
  slice 0 65 (pub ++ nonce ++ rest) = pub /\
  slice 65 77 (pub ++ nonce ++ rest) = nonce /\
  slice_from 77 (pub ++ nonce ++ rest) = rest.
Proof.
  intros Lp Ln. unfold slice, slice_from. repeat split.
  - cbn [skipn]. apply firstn_exact. exact Lp.
  - rewrite (skipn_exact _ _ Lp). apply firstn_exact. exact Ln.
  - rewrite app_assoc. apply skipn_exact. rewrite length_app. lia.
Qed.

Section MessageCipher.
Context {P : Platform}.

(** The laws of the curve: an uncompressed point has 65 bytes, and the two
    sides of a Diffie-Hellman exchange compute the same point. *)
Hypothesis getPublicKey_length :
  forall sk pk, getPublicKey sk = Some pk -> length pk = 65%nat.
Hypothesis getSharedSecret_agree :
  forall a b pa pb,
    getPublicKey a = Some pa -> getPublicKey b = Some pb ->
    exists s, getSharedSecret a pb = Some s /\ getSharedSecret b pa = Some s.

(** HKDF returns as many bytes as asked for. *)
Hypothesis hkdf_length : forall ikm info n, length (hkdf ikm info n) = n.

(** AES-GCM: a 256-bit key encrypts; the result is the data and a 128-bit
    tag; decryption under the same key and iv gives the data back. *)
Hypothesis aesGcm_encrypts :
  forall key iv data, length key = 32%nat -> aesGcmEncrypt key iv data <> None.
Hypothesis aesGcm_tag :
  forall key iv data c,
    aesGcmEncrypt key iv data = Some c -> length c = (length data + 16)%nat.
Hypothesis aesGcm_decrypt_encrypt :
  forall key iv data c,
    aesGcmEncrypt key iv data = Some c -> aesGcmDecrypt key iv c = Some data.

Lemma normalizePubKey_keyPair (k : E2EEKeys) (pk : list byte) :
  getPublicKey (privateKey k) = Some pk -> publicKeyHex k = bytesToHex pk ->
  normalizePubKey (publicKeyHex k) = pk.
Proof.
  intros G H. rewrite H. apply normalizePubKey_bytesToHex.
  exact (getPublicKey_length _ G).
Qed.

(** The blob of a successful encryption, part by part. *)
Lemma encrypt_layout (plaintext modelPubKeyHex : jsstring) (clientKeys : E2EEKeys)
  (e e' : entropy) (blob : jsstring) (pk : list byte) :
  getPublicKey (privateKey clientKeys) = Some pk ->
  publicKeyHex clientKeys = bytesToHex pk ->
  encryptMessageWithClientKeys plaintext modelPubKeyHex clientKeys e
    = (Resolved blob, e') ->
  exists s c,
    getSharedSecret (privateKey clientKeys) (normalizePubKey modelPubKeyHex) = Some s /\
    aesGcmEncrypt (deriveKey s) (fst (getRandomValues 12 e))
      (TextEncoder_encode plaintext) = Some c /\
    blob = bytesToHex (pk ++ fst (getRandomValues 12 e) ++ c) /\
    e' = snd (getRandomValues 12 e).
Proof.
  intros G H E. unfold encryptMessageWithClientKeys in E.
  destruct (getSharedSecret (privateKey clientKeys) (normalizePubKey modelPubKeyHex))
    as [s|]; [|discriminate].
  destruct (getRandomValues 12 e) as [nonce e1] eqn:R.
  destruct (aesGcmEncrypt (deriveKey s) nonce (TextEncoder_encode plaintext))
    as [c|] eqn:C; cbn [orThrow bind] in E; [|discriminate].
  rewrite (normalizePubKey_keyPair _ G H) in E.
  injection E as <- <-. exists s, c. cbn [fst snd]. auto.
Qed.

(** Encryption to the public key of a key pair resolves. *)
Lemma encrypt_resolves (plaintext : jsstring) (A B : E2EEKeys) (e : entropy) :
  isKeyPair A -> isKeyPair B ->
  exists blob,
    encryptMessageWithClientKeys plaintext (publicKeyHex B) A e
      = (Resolved blob, snd (getRandomValues 12 e)).
Proof.
  intros (pa & Ga & Ha) (pb & Gb & Hb).
  destruct (getSharedSecret_agree _ _ Ga Gb) as (s & S1 & _).
  unfold encryptMessageWithClientKeys.
  rewrite (normalizePubKey_keyPair _ Gb Hb), S1.
  destruct (getRandomValues 12 e) as [nonce e1] eqn:R. cbn [snd].
  destruct (aesGcmEncrypt (deriveKey s) nonce (TextEncoder_encode plaintext))
    as [c|] eqn:C.
  - cbn [orThrow bind]. eauto.
  - exfalso. apply (aesGcm_encrypts (deriveKey s) nonce (TextEncoder_encode plaintext));
      [apply hkdf_length | exact C].
Qed.

(** Decrypting, with the secret key of [B], what was encrypted to [B] with
    the keys of [A]: the plaintext after a passage through UTF-8. *)
Lemma decrypt_encrypt (plaintext : jsstring) (A B : E2EEKeys) (e e' : entropy)
  (blob : jsstring) :
  isKeyPair A -> isKeyPair B ->
  encryptMessageWithClientKeys plaintext (publicKeyHex B) A e = (Resolved blob, e') ->
  decryptResponse blob (privateKey B)
    = Resolved (TextDecoder_decode (TextEncoder_encode plaintext)).
Proof.
  intros (pa & Ga & Ha) (pb & Gb & Hb) E.
  destruct (encrypt_layout _ _ _ _ Ga Ha E) as (s & c & S & C & -> & _).
  rewrite (normalizePubKey_keyPair _ Gb Hb) in S.
  destruct (getSharedSecret_agree _ _ Ga Gb) as (s' & S1 & S2).
  assert (s' = s) by congruence. subst s'.
  unfold decryptResponse. rewrite hexToBytes_bytesToHex.
  destruct (slices_of_blob pa (fst (getRandomValues 12 e)) c) as (X1 & X2 & X3);
    [exact (getPublicKey_length _ Ga) | apply length_getRandomValues |].
  rewrite X1, X2, X3, S2. cbn [orThrow bind].
  rewrite (aesGcm_decrypt_encrypt _ _ _ C). reflexivity.
Qed.

(** C9. The blob of an encryption made with the keys of a key pair is the
    hexadecimal text of the 65 bytes of the sender's public key, then the 12
    bytes of the nonce, then the ciphertext with its 16-byte tag; decryption
    cuts the decoded blob at these offsets: [0, 65), [65, 77) and from 77 on.
    Encrypting ["hello"] gives 196 hexadecimal characters. *)
Theorem encrypted_blob_layout (plaintext modelPubKeyHex : jsstring)
  (clientKeys : E2EEKeys) (e e' : entropy) (blob : jsstring) :
  isKeyPair clientKeys ->
  encryptMessageWithClientKeys plaintext modelPubKeyHex clientKeys e
    = (Resolved blob, e') ->
  exists ephemeralPub nonce ciphertextWithTag,
    blob = bytesToHex (ephemeralPub ++ nonce ++ ciphertextWithTag) /\
    getPublicKey (privateKey clientKeys) = Some ephemeralPub /\
    length ephemeralPub = 65%nat /\
    nonce = fst (getRandomValues 12 e) /\
    length nonce = 12%nat /\
    length ciphertextWithTag = (length (TextEncoder_encode plaintext) + 16)%nat /\
    slice 0 65 (hexToBytes blob) = ephemeralPub /\
    slice 65 77 (hexToBytes blob) = nonce /\
    slice_from 77 (hexToBytes blob) = ciphertextWithTag /\
    length blob = ((65 + 12 + length (TextEncoder_encode plaintext) + 16) * 2)%nat /\
    (plaintext = js "hello" -> length blob = 196%nat).
Proof.
  intros (pk & G & H) E.
  destruct (encrypt_layout _ _ _ _ G H E) as (s & c & S & C & -> & _).
  pose proof (getPublicKey_length _ G) as Lp.
  pose proof (length_getRandomValues 12 e) as Ln.
  pose proof (aesGcm_tag _ _ _ C) as Lc.
  destruct (slices_of_blob pk (fst (getRandomValues 12 e)) c Lp Ln) as (X1 & X2 & X3).
  assert (L : length (bytesToHex (pk ++ fst (getRandomValues 12 e) ++ c))
              = ((65 + 12 + length (TextEncoder_encode plaintext) + 16) * 2)%nat).
  { rewrite length_bytesToHex, !length_app, Lp, Ln, Lc. lia. }
  exists pk, (fst (getRandomValues 12 e)), c.
  rewrite hexToBytes_bytesToHex.
  repeat (split; [assumption || reflexivity|]).
  intros ->. rewrite L. reflexivity.
Qed.

(** C1. For a plaintext that is well-formed UTF-16 and does not begin with
    U+FEFF, and two key pairs [A] and [B]: encrypting to the public key of
    [B] with the keys of [A] resolves with a blob, and decrypting that blob
    with the secret key of [B] resolves with the plaintext. *)
Theorem decryptResponse_encryptMessage (plaintext : jsstring) (A B : E2EEKeys)
  (e : entropy) :
  isKeyPair A -> isKeyPair B ->
  isWellFormed plaintext = true -> startsWithBOM plaintext = false ->
  exists blob e',
    encryptMessageWithClientKeys plaintext (publicKeyHex B) A e = (Resolved blob, e') /\
    decryptResponse blob (privateKey B) = Resolved plaintext.
Proof.
  intros KA KB W B0.
  destruct (encrypt_resolves plaintext e KA KB) as (blob & E).
  exists blob, (snd (getRandomValues 12 e)). split; [exact E|].
  rewrite (decrypt_encrypt _ _ KA KB E).
  rewrite TextDecoder_decode_encode by assumption. reflexivity.
Qed.

End MessageCipher.

(* ------------------------------------------------------------------ *)
(** ** The small platform meets the laws *)

Lemma Demo_getPublicKey_length (sk pk : list byte) :
  Demo.getPublicKey sk = Some pk -> length pk = 65%nat.
Proof.
  unfold Demo.getPublicKey. destruct (Nat.eqb_spec (length sk) 32); [|discriminate].
  intros [= <-]. cbn [length]. rewrite length_app. lia.
Qed.

Lemma Demo_mix_comm (a b : list byte) :
  map Demo.mix (combine a b) = map Demo.mix (combine b a).
Proof.
  revert b. induction a as [|x a IH]; intros [|y b]; cbn; try reflexivity.
  rewrite IH. f_equal. unfold Demo.mix. cbn [fst snd]. f_equal. lia.
Qed.

Lemma Demo_getSharedSecret_agree (a b pa pb : list byte) :
  Demo.getPublicKey a = Some pa -> Demo.getPublicKey b = Some pb ->
  exists s, Demo.getSharedSecret a pb = Some s /\ Demo.getSharedSecret b pa = Some s.
Proof.
  unfold Demo.getPublicKey.
  destruct (Nat.eqb_spec (length a) 32) as [La|]; [|discriminate].
  destruct (Nat.eqb_spec (length b) 32) as [Lb|]; [|discriminate].
  intros [= <-] [= <-]. unfold Demo.getSharedSecret.
  rewrite !length_app, La, Lb. cbn [Nat.add Nat.eqb andb].
  rewrite (firstn_exact a a La), (firstn_exact b b Lb).
  eexists. split; [reflexivity|]. rewrite (Demo_mix_comm b a). reflexivity.
Qed.

Lemma Demo_hkdf_length (ikm info : list byte) (n : nat) :
  length (Demo.hkdf ikm info n) = n.
Proof.
  unfold Demo.hkdf, Demo.zeros.
  rewrite length_firstn, !length_app, repeat_length. lia.
Qed.

Lemma Demo_aesGcm_encrypts (key iv data : list byte) :
  length key = 32%nat -> Demo.aesGcmEncrypt key iv data <> None.
Proof. intros L. unfold Demo.aesGcmEncrypt. rewrite L. discriminate. Qed.

Lemma Demo_tag_length (key : list byte) :
  length key = 32%nat -> length (Demo.tag key) = 16%nat.
Proof. intros L. unfold Demo.tag. rewrite length_firstn. lia. Qed.

Lemma Demo_aesGcm_tag (key iv data c : list byte) :
  Demo.aesGcmEncrypt key iv data = Some c -> length c = (length data + 16)%nat.
Proof.
  unfold Demo.aesGcmEncrypt.
  destruct (Nat.eqb_spec (length key) 32) as [L|]; [|discriminate].
  intros [= <-]. rewrite length_app, (Demo_tag_length key L). reflexivity.
Qed.

Lemma Demo_bytes_eqb_refl (a : list byte) : Demo.bytes_eqb a a = true.
Proof.
  induction a as [|x a IH]; [reflexivity|]. cbn.
  rewrite IH, (Byte.byte_dec_lb eq_refl). reflexivity.
Qed.

Lemma Demo_bytes_eqb_eq (a b : list byte) : Demo.bytes_eqb a b = true -> a = b.
Proof.
  revert b. induction a as [|x a IH]; intros [|y b]; cbn; try discriminate; auto.
  intros H. apply andb_prop in H as [H1 H2].
  apply Byte.byte_dec_bl in H1. apply IH in H2. congruence.
Qed.

Lemma Demo_aesGcm_decrypt_encrypt (key iv data c : list byte) :
  Demo.aesGcmEncrypt key iv data = Some c -> Demo.aesGcmDecrypt key iv c = Some data.
Proof.
  unfold Demo.aesGcmEncrypt, Demo.aesGcmDecrypt.
  destruct (Nat.eqb_spec (length key) 32) as [L|]; [|discriminate].
  intros [= <-].
  rewrite length_app, (Demo_tag_length key L).
  replace (length data + 16 - 16)%nat with (length data) by lia.
  rewrite (skipn_exact data (Demo.tag key) eq_refl), Demo_bytes_eqb_refl.
  rewrite (firstn_exact data (Demo.tag key) eq_refl).
  replace (Nat.leb 16 (length data + 16)) with true
    by (symmetry; apply Nat.leb_le; lia).
  reflexivity.
Qed.

Lemma Demo_clientKeys_isKeyPair : @isKeyPair Demo.platform Demo.clientKeys.
Proof. eexists. split; reflexivity. Qed.

Lemma Demo_modelKeys_isKeyPair : @isKeyPair Demo.platform Demo.modelKeys.
Proof. eexists. split; reflexivity. Qed.

#[local] Existing Instance Demo.platform.

Lemma decryptResponse_encryptMessage_witness :
  isKeyPair Demo.clientKeys /\ isKeyPair Demo.modelKeys /\
  isWellFormed (js "hello") = true /\ startsWithBOM (js "hello") = false /\
  exists blob e',
    encryptMessageWithClientKeys (js "hello") (publicKeyHex Demo.modelKeys)
      Demo.clientKeys Demo.counting = (Resolved blob, e') /\
    decryptResponse blob (privateKey Demo.modelKeys) = Resolved (js "hello").
Proof.
  split; [exact Demo_clientKeys_isKeyPair|].
  split; [exact Demo_modelKeys_isKeyPair|].
  split; [reflexivity|]. split; [reflexivity|].
  apply (@decryptResponse_encryptMessage Demo.platform
           Demo_getPublicKey_length Demo_getSharedSecret_agree Demo_hkdf_length
           Demo_aesGcm_encrypts Demo_aesGcm_decrypt_encrypt).
  - exact Demo_clientKeys_isKeyPair.
  - exact Demo_modelKeys_isKeyPair.
  - reflexivity.
  - reflexivity.
Defined.

(** A plaintext that begins with U+FEFF comes back without it. *)
Lemma decryptResponse_drops_BOM :
  exists blob e',
    encryptMessageWithClientKeys (0xFEFF :: js "hello") (publicKeyHex Demo.modelKeys)
      Demo.clientKeys Demo.counting = (Resolved blob, e') /\
    decryptResponse blob (privateKey Demo.modelKeys) = Resolved (js "hello") /\
    js "hello" <> 0xFEFF :: js "hello".
Proof.
  destruct (@encrypt_resolves Demo.platform Demo_getPublicKey_length
              Demo_getSharedSecret_agree
              Demo_hkdf_length Demo_aesGcm_encrypts (0xFEFF :: js "hello")
              Demo.clientKeys Demo.modelKeys Demo.counting
              Demo_clientKeys_isKeyPair Demo_modelKeys_isKeyPair) as (blob & E).
  exists blob, (snd (getRandomValues 12 Demo.counting)).
  split; [exact E|]. split; [|discriminate].
  rewrite (@decrypt_encrypt Demo.platform Demo_getPublicKey_length
             Demo_getSharedSecret_agree Demo_aesGcm_decrypt_encrypt _ _ _ _ _ _
             Demo_clientKeys_isKeyPair Demo_modelKeys_isKeyPair E).
  rewrite TextDecoder_drops_BOM. reflexivity.
Qed.

(** The blob of ["hello"] on the small platform. *)
Lemma Demo_hello_blob :
  exists blob,
    encryptMessageWithClientKeys (js "hello") (publicKeyHex Demo.modelKeys)
      Demo.clientKeys Demo.counting
    = (Resolved blob, snd (getRandomValues 12 Demo.counting)).
Proof.
  exact (@encrypt_resolves Demo.platform Demo_getPublicKey_length
              Demo_getSharedSecret_agree
           Demo_hkdf_length Demo_aesGcm_encrypts (js "hello")
           Demo.clientKeys Demo.modelKeys Demo.counting
           Demo_clientKeys_isKeyPair Demo_modelKeys_isKeyPair).
Qed.

Lemma encrypted_blob_layout_witness :
  isKeyPair Demo.clientKeys /\
  exists blob,
    encryptMessageWithClientKeys (js "hello") (publicKeyHex Demo.modelKeys)
      Demo.clientKeys Demo.counting
    = (Resolved blob, snd (getRandomValues 12 Demo.counting)) /\
    length blob = 196%nat /\
    length (slice 0 65 (hexToBytes blob)) = 65%nat /\
    length (slice 65 77 (hexToBytes blob)) = 12%nat /\
    length (slice_from 77 (hexToBytes blob)) = 21%nat.
Proof.
  split; [exact Demo_clientKeys_isKeyPair|].
  destruct Demo_hello_blob as (blob & E). exists blob. split; [exact E|].
  destruct (@encrypted_blob_layout Demo.platform Demo_getPublicKey_length
              Demo_aesGcm_tag (js "hello") (publicKeyHex Demo.modelKeys)
              Demo.clientKeys Demo.counting _ blob
              Demo_clientKeys_isKeyPair E)
    as (pub & nonce & c & _ & _ & Lp & _ & Ln & Lc & S1 & S2 & S3 & _ & L).
  rewrite S1, S2, S3. repeat split; auto.
Defined.

(* ================================================================== *)
(** * The attestation check *)

Section JsonInduction.
Variable Q : json -> Prop.
Hypothesis Q_null : Q JNull.
Hypothesis Q_bool : forall b, Q (JBool b).
Hypothesis Q_number : forall n, Q (JNumber n).
Hypothesis Q_string : forall s, Q (JString s).
Hypothesis Q_array : forall items, Forall Q items -> Q (JArray items).
Hypothesis Q_object :
  forall members, Forall (fun m => Q (snd m)) members -> Q (JObject members).

(** Induction on a JSON value, with the property known of every item of an
    array and of every member of an object. *)
Fixpoint json_induction (j : json) : Q j :=
  match j with
  | JNull => Q_null
  | JBool b => Q_bool b
  | JNumber n => Q_number n
  | JString s => Q_string s
  | JArray items =>
      Q_array
        ((fix all (l : list json) : Forall Q l :=
            match l with
            | [] => Forall_nil Q
            | x :: rest => Forall_cons x (json_induction x) (all rest)
            end) items)
  | JObject members =>
      Q_object
        ((fix all (l : list (jsstring * json)) : Forall (fun m => Q (snd m)) l :=
            match l with
            | [] => Forall_nil _
            | m :: rest =>
                Forall_cons (P := fun m => Q (snd m)) m (json_induction (snd m)) (all rest)
            end) members)
  end.
End JsonInduction.

Lemma keyLooksValid_formatValid (key : jsstring) :
  keyLooksValid key = formatValid key.
Proof.
  unfold keyLooksValid, formatValid, replaceLeading0x, isHex.
  destruct (startsWith key (js "0x")) eqn:S.
  - rewrite length_skipn.
    destruct (Nat.eqb_spec (length key - 2) 0) as [Z|NZ]; cbn [negb andb].
    + rewrite Z. cbn. rewrite andb_false_r. reflexivity.
    + reflexivity.
  - destruct (Nat.eqb_spec (length key) 0) as [Z|NZ]; cbn [negb andb].
    + rewrite Z. cbn. rewrite andb_false_r. reflexivity.
    + reflexivity.
Qed.

Section Attestation.
Context {P : Platform}.

(** The scan finds the nonce exactly when some string of the body equals it,
    letter case apart. *)
Lemma findNonceRecursive_nonceFound (nonce : jsstring) (node : json) :
  findNonceRecursive node nonce = true <-> nonceFound node nonce.
Proof.
  unfold nonceFound.
  induction node as [| b | n | s | items IH | members IH] using json_induction;
    cbn [findNonceRecursive].
  - split; [discriminate | intros (s & H & _); inversion H].
  - split; [discriminate | intros (s & H & _); inversion H].
  - split; [discriminate | intros (s & H & _); inversion H].
  - rewrite str_eqb_eq. split.
    + intros E. exists s. split; [constructor | exact E].
    + intros (s' & H & E). inversion H; subst. exact E.
  - rewrite existsb_exists. rewrite Forall_forall in IH. split.
    + intros (item & I & F). apply (IH item I) in F as (s & H & E).
      exists s. split; [econstructor; eassumption | exact E].
    + intros (s & H & E). inversion H; subst.
      exists item. split; [assumption|]. apply (IH item); eauto.
  - rewrite existsb_exists. rewrite Forall_forall in IH. split.
    + intros ([k v] & I & F). apply (IH (k, v) I) in F as (s & H & E).
      exists s. split; [econstructor; eassumption | exact E].
    + intros (s & H & E). inversion H; subst.
      exists (k, v). split; [assumption|]. apply (IH (k, v)); eauto.
Qed.

Lemma getProp_member (data : json) (name : string) (v : value) :
  getProp (Some data) name = Resolved v ->
  data <> JNull /\ v = member data (js name).
Proof.
  unfold getProp. destruct data; cbn; intros H; try discriminate;
    injection H as <-; split; congruence.
Qed.

(** What a report tells about the exchange that produced it. *)
Lemma attestationOf_resolved (reply : fetchReply) (nonce0 : jsstring) (now : Z)
  (report : AttestationReport) :
  attestationOf reply nonce0 now = Resolved report ->
  exists res data key,
    reply = Some res /\ ok res = true /\ json_body res = Some data /\
    signingKeyOf data = Some key /\ truthy (Some key) = true /\
    signingPublicKey report = toStringJson key /\
    nonce report = nonce0 /\
    nonceMatched report = findNonceRecursive data nonce0 /\
    verificationLevel report
      = levelOf (keyLooksValid (toStringJson key)) (findNonceRecursive data nonce0) /\
    verified report = VerificationLevel_eqb (verificationLevel report) LevelNonce.
Proof.
  unfold attestationOf. destruct reply as [res|]; cbn [orThrow bind]; [|discriminate].
  destruct (ok res) eqn:Ok; cbn [negb]; [|discriminate].
  destruct (json_body res) as [data|] eqn:B; cbn [orThrow bind]; [|discriminate].
  destruct (getProp (Some data) "model_attestations") as [att|err] eqn:G;
    cbn [bind]; [|discriminate].
  apply getProp_member in G as [NN ->].
  fold (signingKeyOf data).
  destruct (signingKeyOf data) as [key|] eqn:K; [|cbn; discriminate].
  destruct (truthy (Some key)) eqn:T; cbn [negb]; [|discriminate].
  intros [= <-]. exists res, data, key. cbn. repeat split; auto.
Qed.

(** The replies for which there is no report. *)
Lemma attestationOf_rejected (res : Response) (nonce0 : jsstring) (now : Z) :
  ok res = false \/ json_body res = None \/
  (exists data, json_body res = Some data /\ truthy (signingKeyOf data) = false) ->
  exists err, attestationOf (Some res) nonce0 now = Rejected err.
Proof.
  unfold attestationOf. cbn [orThrow bind].
  intros [Ok | [B | (data & B & T)]].
  - rewrite Ok. cbn. eauto.
  - destruct (ok res); cbn [negb]; [|eauto]. rewrite B. cbn. eauto.
  - destruct (ok res); cbn [negb]; [|eauto]. rewrite B. cbn [orThrow bind].
    destruct (getProp (Some data) "model_attestations") as [att|err] eqn:G;
      cbn [bind]; [|eauto].
    apply getProp_member in G as [NN ->].
    fold (signingKeyOf data). rewrite T. cbn. eauto.
Qed.

Lemma levelOf_cases (valid found : bool) :
  (levelOf valid found = LevelNonce <-> valid = true /\ found = true) /\
  (levelOf valid found = LevelFormat <-> valid = true /\ found = false) /\
  (levelOf valid found = LevelNone <-> valid = false).
Proof.
  destruct valid, found; cbn; repeat split; intros; try tauto;
    try discriminate; try (destruct H; discriminate).
Qed.

(** C4. For every report of the attestation check: its nonce is the one
    drawn for the request, and, with the body being the reply to that
    request, its level is [nonce] exactly when the signing key is format
    valid and the nonce stands in the body, [format] exactly when the key is
    format valid and the nonce does not, [none] exactly when the key is not
    format valid; [verified] holds exactly at level [nonce]. *)
Theorem verificationLevel_classification (net : Transport) (apiKey : option jsstring)
  (now : Z) (e e' : entropy) (report : AttestationReport) :
  fetchModelPublicKey net apiKey now e = (Resolved report, e') ->
  exists res data,
    nonce report = bytesToHex (fst (getRandomValues 32 e)) /\
    attestationEndpoint net (nonce report) (apiKeyHeader apiKey) = Some res /\
    json_body res = Some data /\
    (verificationLevel report = LevelNonce <->
       formatValid (signingPublicKey report) = true /\ nonceFound data (nonce report)) /\
    (verificationLevel report = LevelFormat <->
       formatValid (signingPublicKey report) = true /\ ~ nonceFound data (nonce report)) /\
    (verificationLevel report = LevelNone <->
       formatValid (signingPublicKey report) = false) /\
    (verified report = true <-> verificationLevel report = LevelNonce).
Proof.
  unfold fetchModelPublicKey.
  destruct (getRandomValues 32 e) as [nonceBytes e1]. cbn [fst].
  set (nonce0 := bytesToHex nonceBytes).
  intros A. apply (f_equal fst) in A. cbn [fst] in A.
  apply attestationOf_resolved in A
    as (res & data & key & R & _ & B & _ & _ & Sk & N & _ & L & V).
  pose proof (levelOf_cases (keyLooksValid (toStringJson key))
                (findNonceRecursive data nonce0)) as (C1 & C2 & C3).
  pose proof (findNonceRecursive_nonceFound nonce0 data) as F.
  rewrite <- L, keyLooksValid_formatValid in C1, C2, C3.
  exists res, data. rewrite N, Sk.
  split; [reflexivity|]. split; [exact R|]. split; [exact B|].
  split; [rewrite C1, F; reflexivity|].
  split.
  { rewrite C2, <- F. destruct (findNonceRecursive data nonce0);
      split; intros [H1 H2]; split; congruence. }
  split; [exact C3|].
  rewrite V. destruct (verificationLevel report); cbn; split; congruence.
Qed.

End Attestation.

Lemma verificationLevel_classification_witness :
  exists report e',
    fetchModelPublicKey (Demo.transport (JString Demo.signingKey) true [])
      None 0 Demo.counting = (Resolved report, e') /\
    verificationLevel report = LevelNonce /\
    (verified report = true <-> verificationLevel report = LevelNonce).
Proof.
  destruct (fetchModelPublicKey (Demo.transport (JString Demo.signingKey) true [])
              None 0 Demo.counting) as [[report|err] e'] eqn:E.
  - exists report, e'. split; [reflexivity|].
    destruct (verificationLevel_classification E)
      as (res & data & _ & _ & _ & _ & _ & _ & V).
    split; [|exact V].
    apply (f_equal fst) in E. vm_compute in E. injection E as <-. reflexivity.
  - apply (f_equal fst) in E. vm_compute in E. discriminate E.
Defined.

Section AttestationFailure.
Context {P : Platform}.

(** C10. When the body of a 2xx attestation reply is not JSON, or has no
    (or an empty, null, zero or false) [model_attestations[0].signing_public_key],
    [fetchModelPublicKey] rejects and gives no report.  Whenever it does
    give a report, the body holds a signing key, and the report has level
    [none] exactly when that key is not format valid. *)
Theorem attestation_without_key_rejects (net : Transport) (apiKey : option jsstring)
  (now : Z) (e : entropy) (res : Response) :
  attestationEndpoint net (bytesToHex (fst (getRandomValues 32 e)))
    (apiKeyHeader apiKey) = Some res ->
  ((json_body res = None \/
    exists data, json_body res = Some data /\ truthy (signingKeyOf data) = false) ->
   exists err, fst (fetchModelPublicKey net apiKey now e) = Rejected err) /\
  (forall report,
     fst (fetchModelPublicKey net apiKey now e) = Resolved report ->
     exists data key,
       json_body res = Some data /\ signingKeyOf data = Some key /\
       truthy (Some key) = true /\
       signingPublicKey report = toStringJson key /\
       (verificationLevel report = LevelNone <->
          formatValid (toStringJson key) = false)).
Proof.
  intros R. unfold fetchModelPublicKey.
  destruct (getRandomValues 32 e) as [nonceBytes e1]. cbn [fst] in *.
  rewrite R. split.
  - intros H. apply attestationOf_rejected. right. exact H.
  - intros report A.
    apply attestationOf_resolved in A
      as (res' & data & key & R' & _ & B & K & T & Sk & _ & _ & L & _).
    injection R' as <-. exists data, key.
    repeat (split; [assumption|]).
    rewrite L, <- keyLooksValid_formatValid. apply levelOf_cases.
Qed.

End AttestationFailure.

Lemma attestation_without_key_rejects_witness :
  attestationEndpoint (Demo.replying (Some (JObject [])))
    (bytesToHex (fst (getRandomValues 32 Demo.counting))) (apiKeyHeader None)
  = Some {| ok := true; status := 200; json_body := Some (JObject []) |} /\
  exists err,
    fst (fetchModelPublicKey (Demo.replying (Some (JObject []))) None 0 Demo.counting)
    = Rejected err.
Proof.
  split; [reflexivity|].
  apply (@attestation_without_key_rejects Demo.platform
           (Demo.replying (Some (JObject []))) None 0 Demo.counting
           {| ok := true; status := 200; json_body := Some (JObject []) |} eq_refl).
  right. exists (JObject []). split; reflexivity.
Defined.

(** A body without the signing key field, and a body that is not JSON: the
    call rejects, there is no report of level [none]. *)
Lemma attestation_without_key_gives_no_report :
  fst (fetchModelPublicKey (Demo.replying (Some (JObject []))) None 0 Demo.counting)
    = Rejected NoModelPublicKey /\
  fst (fetchModelPublicKey (Demo.replying None) None 0 Demo.counting)
    = Rejected SyntaxError.
Proof. split; reflexivity. Qed.

(* ================================================================== *)
(** * The signature check *)

Lemma strictEqualsString_iff (v : value) (s : jsstring) :
  strictEqualsString v s = true <-> v = Some (JString s).
Proof.
  unfold strictEqualsString.
  destruct v as [[| | | t | |]|]; try (split; [discriminate | intros [=]]).
  rewrite str_eqb_eq. split; [intros ->; reflexivity | intros [= ->]; reflexivity].
Qed.

(** What [fetchChatSignature] resolves with, reply by reply. *)
Lemma signatureOf_cases (res : Response) :
  (ok res = false -> signatureOf (Some res) = Resolved None) /\
  (forall data, ok res = true -> json_body res = Some data ->
     truthy (getPropOpt (Some data) "signature") = false \/
     truthy (getPropOpt (Some data) "text") = false ->
     signatureOf (Some res) = Resolved None) /\
  (forall data, ok res = true -> json_body res = Some data ->
     truthy (getPropOpt (Some data) "signature") = true ->
     truthy (getPropOpt (Some data) "text") = true ->
     exists record,
       signatureOf (Some res) = Resolved (Some record) /\
       sig_text record = getPropOpt (Some data) "text").
Proof.
  unfold signatureOf. cbn [orThrow bind]. repeat split.
  - intros ->. reflexivity.
  - intros data -> -> [H|H]; cbn [negb orThrow bind]; rewrite H; cbn [negb orb].
    + reflexivity.
    + rewrite orb_true_r. reflexivity.
  - intros data -> -> H1 H2. cbn [negb orThrow bind]. rewrite H1, H2. cbn [negb orb].
    eexists. split; reflexivity.
Qed.

(** C6. The result of [buildVerification] has [signatureTextMatches] set
    exactly when it holds a signature record whose text is the string
    [requestHash + ":" + responseHash], and [signatureFetched] set exactly
    when it holds a record.  When the reply is not 2xx, or its body has no
    (or an empty) [signature] or [text], the call resolves, with
    [signatureFetched] and [signatureTextMatches] both false. *)
Theorem buildVerification_result (net : Transport) (chatId : json)
  (requestHash responseHash apiKey : jsstring) :
  (forall result,
     buildVerification net chatId requestHash responseHash apiKey = Resolved result ->
     (signatureTextMatches result = true <->
        exists record, ver_signature result = Some record /\
          sig_text record = Some (JString (requestHash ++ js ":" ++ responseHash))) /\
     (signatureFetched result = true <-> exists record, ver_signature result = Some record) /\
     fetchChatSignature net (toStringJson chatId) (Some apiKey)
       = Resolved (ver_signature result)) /\
  (forall res,
     signatureEndpoint net (toStringJson chatId) (apiKeyHeader (Some apiKey)) = Some res ->
     ok res = false \/
     (exists data, json_body res = Some data /\
        (truthy (getPropOpt (Some data) "signature") = false \/
         truthy (getPropOpt (Some data) "text") = false)) ->
     exists result,
       buildVerification net chatId requestHash responseHash apiKey = Resolved result /\
       signatureFetched result = false /\ signatureTextMatches result = false /\
       ver_signature result = None).
Proof.
  unfold buildVerification. split.
  - intros result.
    destruct (fetchChatSignature net (toStringJson chatId) (Some apiKey))
      as [[record|]|err]; cbn [bind]; [| |discriminate]; intros [= <-]; cbn.
    + repeat split.
      * intros H. apply strictEqualsString_iff in H. eauto.
      * intros (r & [= <-] & H). apply strictEqualsString_iff. exact H.
      * eauto.
    + repeat split; try discriminate.
      * intros (r & H & _). discriminate.
      * intros (r & H). discriminate.
  - intros res R H. unfold fetchChatSignature. rewrite R.
    destruct (signatureOf_cases res) as (C1 & C2 & _).
    assert (S : signatureOf (Some res) = Resolved None).
    { destruct H as [H | (data & B & H)]; [exact (C1 H)|].
      destruct (ok res) eqn:Ok; [|exact (C1 eq_refl)].
      exact (C2 data eq_refl B H). }
    rewrite S. cbn [bind]. eexists. repeat split.
Qed.

Lemma buildVerification_result_witness :
  exists result,
    buildVerification (Demo.transport JNull true (js "aaa:bbb")) (JString (js "chat-1"))
      (js "aaa") (js "bbb") (js "key") = Resolved result /\
    signatureTextMatches result = true /\
    exists record, ver_signature result = Some record /\
      sig_text record = Some (JString (js "aaa" ++ js ":" ++ js "bbb")).
Proof.
  destruct (buildVerification (Demo.transport JNull true (js "aaa:bbb"))
              (JString (js "chat-1")) (js "aaa") (js "bbb") (js "key"))
    as [result|err] eqn:E; [|vm_compute in E; discriminate E].
  exists result. split; [reflexivity|].
  destruct (buildVerification_result (Demo.transport JNull true (js "aaa:bbb"))
              (JString (js "chat-1")) (js "aaa") (js "bbb") (js "key")) as [H _].
  destruct (H result E) as (M & _ & _).
  assert (T : signatureTextMatches result = true)
    by (vm_compute in E; injection E as <-; reflexivity).
  split; [exact T | apply M; exact T].
Defined.

(* ================================================================== *)
(** * Retention *)








(* ================================================================== *)
(** * The keys of an exchange *)

Lemma map_seq_shift {A} (f : nat -> A) (n a len : nat) :
  map (fun i => f (n + i)%nat) (seq a len) = map f (seq (n + a) len).
Proof.
  revert a. induction len as [|len IH]; intros a; [reflexivity|].
  cbn [seq map]. rewrite IH. f_equal. f_equal. f_equal. lia.
Qed.

Section ExchangeKeys.
Context {P : Platform}.

Hypothesis getPublicKey_length :
  forall sk pk, getPublicKey sk = Some pk -> length pk = 65%nat.

(** [generateClientKeys] resolves with a key pair. *)
Lemma generateClientKeys_isKeyPair (e e' : entropy) (keys : E2EEKeys) :
  generateClientKeys e = (Resolved keys, e') -> isKeyPair keys.
Proof.
  unfold generateClientKeys. destruct (randomSecretKey e) as [sk e1].
  destruct (getPublicKey sk) as [pk|] eqn:G; cbn [orThrow bind]; [|discriminate].
  intros [= <- _]. exists pk. cbn. auto.
Qed.

(** The messages of one exchange: each content is replaced by a blob that
    begins with the public key of the one key pair, followed by the next
    twelve bytes of the random source. *)
Lemma encryptMessages_blobs (modelPubKeyHex : jsstring) (keys : E2EEKeys)
  (pk : list byte) (messages encrypted : list ChatMessage) (e e' : entropy) :
  getPublicKey (privateKey keys) = Some pk -> publicKeyHex keys = bytesToHex pk ->
  encryptMessages modelPubKeyHex keys messages e = (Resolved encrypted, e') ->
  length encrypted = length messages /\
  forall i m, nth_error encrypted i = Some m ->
    exists c, content m = bytesToHex (pk ++ map e (seq (12 * i) 12) ++ c).
Proof.
  intros G H. revert encrypted e e'.
  induction messages as [|m0 rest IH]; intros encrypted e e' E; cbn [encryptMessages] in E.
  - injection E as <- <-. split; [reflexivity|]. intros [|i] m; discriminate.
  - destruct (encryptMessageWithClientKeys (content m0) modelPubKeyHex keys e)
      as [[blob|err] e1] eqn:E1; [|discriminate].
    destruct (encryptMessages modelPubKeyHex keys rest e1)
      as [[rest'|err] e2] eqn:E2; [|discriminate].
    injection E as <- <-.
    destruct (encrypt_layout getPublicKey_length _ _ _ _ G H E1)
      as (s & c & _ & _ & B & E1').
    destruct (IH _ _ _ E2) as [L N].
    split; [cbn; congruence|].
    intros [|i] m; cbn [nth_error].
    + intros [= <-]. exists c. exact B.
    + intros Hm. destruct (N i m Hm) as (c' & C'). exists c'. rewrite C'.
      rewrite E1'. unfold getRandomValues. cbn [snd].
      rewrite map_seq_shift.
      replace (12 * S i)%nat with (12 + 12 * i)%nat by lia. reflexivity.
Qed.

(** What a prepared end-to-end encrypted request holds. *)
Lemma prepareRequest_keys (net : Transport) (options : ChatOptions)
  (now : Z) (cache cache' : option AttestationReport) (e e' : entropy)
  (request : PreparedRequest) :
  useE2EE options = true ->
  prepareRequest net options now cache e = (Resolved request, cache', e') ->
  exists keys pk e1 e2,
    generateClientKeys e1 = (Resolved keys, e2) /\
    req_clientKeys request = Some keys /\
    getPublicKey (privateKey keys) = Some pk /\
    publicKeyHex keys = bytesToHex pk /\
    In (js "X-Client-Pub-Key", publicKeyHex keys) (req_nearHeaders request) /\
    length (req_messages request) = (length (history options) + 2)%nat /\
    forall i m, nth_error (req_messages request) i = Some m ->
      slice 0 65 (hexToBytes (content m)) = pk /\
      slice 65 77 (hexToBytes (content m)) = map e2 (seq (12 * i) 12).
Proof.
  intros U E. unfold prepareRequest in E. rewrite U in E.
  destruct (getAttestation net (apiKey options) now cache e)
    as [[[attestation|err] c1] e1] eqn:A; [|discriminate].
  destruct (generateClientKeys e1) as [[keys|err] e2] eqn:K; [|discriminate].
  destruct (encryptMessages (signingPublicKey attestation) keys
              (buildMessages (history options) (message options)) e2)
    as [[encrypted|err] e3] eqn:M; [|discriminate].
  injection E as <- _ _.
  destruct (generateClientKeys_isKeyPair _ K) as (pk & G & H).
  destruct (encryptMessages_blobs _ _ _ _ G H M) as [L N].
  exists keys, pk, e1, e2. cbn [req_clientKeys req_nearHeaders req_messages].
  repeat (split; [first [assumption | reflexivity | (cbn; tauto)]|]).
  split.
  - rewrite L. unfold buildMessages. cbn [length].
    rewrite length_app, length_map. cbn. lia.
  - intros i m Hm. destruct (N i m Hm) as (c & C). rewrite C, hexToBytes_bytesToHex.
    destruct (slices_of_blob pk (map e2 (seq (12 * i) 12)) c) as (X1 & X2 & _).
    + exact (getPublicKey_length _ G).
    + rewrite length_map, length_seq. reflexivity.
    + auto.
Qed.

(** C5. An end-to-end encrypted exchange generates one key pair, sends its
    public key in the header [X-Client-Pub-Key], and encrypts every message
    of the request with it: the blob of every message begins with the same
    65 bytes, the public key of that pair; what changes from one message to
    the next is the nonce, the next twelve bytes of the random source. *)
Theorem exchange_uses_one_key_pair (net : Transport) (options : ChatOptions)
  (now : Z) (cache cache' : option AttestationReport) (e e' : entropy)
  (request : PreparedRequest) :
  useE2EE options = true ->
  prepareRequest net options now cache e = (Resolved request, cache', e') ->
  exists keys pk e1 e2,
    generateClientKeys e1 = (Resolved keys, e2) /\
    req_clientKeys request = Some keys /\
    getPublicKey (privateKey keys) = Some pk /\
    publicKeyHex keys = bytesToHex pk /\
    In (js "X-Client-Pub-Key", publicKeyHex keys) (req_nearHeaders request) /\
    length (req_messages request) = (length (history options) + 2)%nat /\
    forall i m, nth_error (req_messages request) i = Some m ->
      slice 0 65 (hexToBytes (content m)) = pk /\
      slice 65 77 (hexToBytes (content m)) = map e2 (seq (12 * i) 12).
Proof. exact (@prepareRequest_keys net options now cache cache' e e' request). Qed.

End ExchangeKeys.

(** An exchange on the small platform: the system prompt and the message. *)
Lemma Demo_exchange :
  exists request cache' e',
    prepareRequest Demo.enclave Demo.options 0 None Demo.counting
    = (Resolved request, cache', e').
Proof.
  destruct (prepareRequest Demo.enclave Demo.options 0 None Demo.counting) as [[[request|err] c] e'] eqn:E.
  - eauto.
  - apply (f_equal (fun x => isResolved (fst (fst x)))) in E.
    vm_compute in E. discriminate E.
Qed.

Lemma exchange_uses_one_key_pair_witness :
  exists request cache' e',
    prepareRequest Demo.enclave Demo.options 0 None Demo.counting
    = (Resolved request, cache', e') /\
    exists keys pk,
      req_clientKeys request = Some keys /\
      getPublicKey (privateKey keys) = Some pk /\
      forall i m, nth_error (req_messages request) i = Some m ->
        slice 0 65 (hexToBytes (content m)) = pk.
Proof.
  destruct Demo_exchange as (request & cache' & e' & E).
  exists request, cache', e'. split; [exact E|].
  destruct (@exchange_uses_one_key_pair Demo.platform Demo_getPublicKey_length
              Demo.enclave Demo.options _ _ _ _ _ _ eq_refl E)
    as (keys & pk & e1 & e2 & _ & C & G & _ & _ & _ & N).
  exists keys, pk. split; [exact C|]. split; [exact G|].
  intros i m Hm. exact (proj1 (N i m Hm)).
Defined.

(** Two messages of one exchange carry the same ephemeral public key. *)
Lemma exchange_reuses_ephemeral_key :
  exists request cache' e' m1 m2,
    prepareRequest Demo.enclave Demo.options 0 None Demo.counting
    = (Resolved request, cache', e') /\
    req_messages request = [m1; m2] /\
    slice 0 65 (hexToBytes (content m1)) = slice 0 65 (hexToBytes (content m2)).
Proof.
  destruct Demo_exchange as (request & cache' & e' & E).
  destruct (@prepareRequest_keys Demo.platform Demo_getPublicKey_length
              Demo.enclave Demo.options _ _ _ _ _ _ eq_refl E)
    as (keys & pk & e1 & e2 & _ & _ & _ & _ & _ & L & N).
  cbn in L.
  destruct (req_messages request) as [|m1 [|m2 [|m3 rest]]] eqn:R; try discriminate L.
  exists request, cache', e', m1, m2. split; [exact E|]. split; [exact R|].
  destruct (N 0%nat m1 eq_refl) as [A1 _].
  destruct (N 1%nat m2 eq_refl) as [A2 _].
  congruence.
Qed.

(* ================================================================== *)
(** * The read loop *)

Section ReadLoop.
Context {P : Platform}.

(** C7. In an end-to-end encrypted exchange, take a line [data: ...] whose
    payload parses to an event with a delta on which [decryptResponse]
    rejects, for whatever reason.  The delta itself is appended to the
    content and handed to [onChunk], nothing else of the content or of the
    earlier chunks changes, and the lines after it are processed as usual. *)
Theorem undecryptable_chunk_is_delivered_raw (keys : E2EEKeys) (hasOnChatId : bool)
  (st : StreamState) (before after : list jsstring) (line : jsstring)
  (parsed delta : json) (err : error) :
  startsWith (trim line) (js "data: ") = true ->
  str_eqb (slice_from 6 (trim line)) (js "[DONE]") = false ->
  JSON_parse_value (slice_from 6 (trim line)) = Some parsed ->
  parsed <> JNull ->
  deltaOf parsed = Some delta ->
  truthy (Some delta) = true ->
  decryptDelta delta (privateKey keys) = Rejected err ->
  exists st1,
    fullContent st1
      = fullContent (fold_left (processLine true (Some keys) hasOnChatId) before st) /\
    onChunkCalls st1
      = onChunkCalls (fold_left (processLine true (Some keys) hasOnChatId) before st) /\
    processLine true (Some keys) hasOnChatId
      (fold_left (processLine true (Some keys) hasOnChatId) before st) line
      = emit st1 delta /\
    fullContent (emit st1 delta) = fullContent st1 ++ toStringJson delta /\
    onChunkCalls (emit st1 delta) = onChunkCalls st1 ++ [delta] /\
    fold_left (processLine true (Some keys) hasOnChatId) (before ++ line :: after) st
      = fold_left (processLine true (Some keys) hasOnChatId) after (emit st1 delta).
Proof.
  intros S D J N Dl T X.
  set (run := fold_left (processLine true (Some keys) hasOnChatId)).
  set (st0 := run before st).
  set (st1 := match member parsed (js "id") with
              | Some chatId =>
                  if hasOnChatId && truthy (Some chatId) then noteChatId st0 chatId else st0
              | None => st0
              end).
  assert (L : processLine true (Some keys) hasOnChatId st0 line = emit st1 delta).
  { unfold processLine. rewrite S, D, J. cbn [negb].
    destruct parsed; try contradiction; try reflexivity;
      fold st1; rewrite Dl, T; cbn [negb]; unfold deliver; rewrite X; reflexivity. }
  exists st1.
  assert (F : fullContent st1 = fullContent st0 /\ onChunkCalls st1 = onChunkCalls st0).
  { unfold st1. destruct (member parsed (js "id")) as [chatId|]; [|auto].
    destruct (hasOnChatId && truthy (Some chatId)); auto. }
  destruct F as [F1 F2].
  repeat (split; [assumption || reflexivity|]).
  unfold run. rewrite fold_left_app. cbn [fold_left].
  change (fold_left (processLine true (Some keys) hasOnChatId) before st) with st0.
  rewrite L. reflexivity.
Qed.

End ReadLoop.

Lemma undecryptable_chunk_is_delivered_raw_witness :
  decryptDelta (JString (js "plain text")) (privateKey Demo.clientKeys)
    = Rejected CurveError /\
  exists st1,
    processLine true (Some Demo.clientKeys) false initialStreamState
      (js "data: plain text") = emit st1 (JString (js "plain text")) /\
    fullContent (emit st1 (JString (js "plain text"))) = js "plain text" /\
    onChunkCalls (emit st1 (JString (js "plain text"))) = [JString (js "plain text")].
Proof.
  split; [reflexivity|].
  destruct (@undecryptable_chunk_is_delivered_raw Demo.platform Demo.clientKeys false
              initialStreamState [] [] (js "data: plain text")
              (JObject [(js "choices",
                 JArray [JObject [(js "delta",
                   JObject [(js "content", JString (js "plain text"))])]])])
              (JString (js "plain text")) CurveError)
    as (st1 & F1 & F2 & L & C1 & C2 & R).
  - reflexivity.
  - reflexivity.
  - reflexivity.
  - discriminate.
  - reflexivity.
  - reflexivity.
  - reflexivity.
  - exists st1. cbn [fold_left] in *. split; [exact L|].
    rewrite C1, C2, F1, F2. split; reflexivity.
Defined.

(* ================================================================== *)
(** * The vault *)

Lemma insertSorted_Permutation {A} (compare : A -> A -> Z) (a : A) (l : list A) :
  Permutation (insertSorted compare a l) (a :: l).
Proof.
  induction l as [|b l IH]; cbn; [reflexivity|].
  destruct (compare a b <=? 0); [reflexivity|].
  rewrite IH. apply perm_swap.
Qed.

Lemma Array_sort_Permutation {A} (compare : A -> A -> Z) (l : list A) :
  Permutation (Array_sort compare l) l.
Proof.
  induction l as [|a l IH]; cbn; [reflexivity|].
  rewrite insertSorted_Permutation, IH. reflexivity.
Qed.

Lemma insertSorted_newestFirst (a : Conversation) (l : list Conversation) :
  Sorted newestFirst l ->
  Sorted newestFirst (insertSorted (fun a b => createdAt b - createdAt a) a l).
Proof.
  induction l as [|b l IH]; intros S; cbn.
  - repeat constructor.
  - destruct (Z.leb_spec (createdAt b - createdAt a) 0) as [C|C].
    + constructor; [exact S|]. constructor. unfold newestFirst. lia.
    + inversion S as [|? ? S' Hd]; subst. constructor; [apply IH; exact S'|].
      destruct l as [|c l]; cbn.
      * constructor. unfold newestFirst. lia.
      * destruct (Z.leb_spec (createdAt c - createdAt a) 0).
        -- constructor. unfold newestFirst. lia.
        -- inversion Hd; subst. constructor. assumption.
Qed.

(** The sort of [getAllConversations] puts the newest first and loses
    nothing. *)
Lemma Array_sort_newestFirst (l : list Conversation) :
  Sorted newestFirst (Array_sort (fun a b => createdAt b - createdAt a) l).
Proof.
  induction l as [|a l IH]; cbn; [constructor|].
  apply insertSorted_newestFirst. exact IH.
Qed.

Lemma Promise_all_resolved {A B} (f : A -> outcome B) (l : list A) (out : list B) :
  Promise_all (map f l) = Resolved out <-> Forall2 (fun x y => f x = Resolved y) l out.
Proof.
  revert out. induction l as [|x l IH]; intros out; cbn.
  - split.
    + intros [= <-]. constructor.
    + intros H. inversion H. reflexivity.
  - split.
    + destruct (f x) as [y|e] eqn:F; [|discriminate].
      destruct (Promise_all (map f l)) as [ys|e] eqn:Q; [|discriminate].
      intros [= <-]. constructor; [exact F|]. apply IH. reflexivity.
    + intros H. inversion H as [|? y ? ys F T]; subst. rewrite F.
      apply IH in T. rewrite T. reflexivity.
Qed.

Lemma Promise_all_rejected {A B} (f : A -> outcome B) (l : list A) (x : A) (e : error) :
  In x l -> f x = Rejected e -> exists e', Promise_all (map f l) = Rejected e'.
Proof.
  induction l as [|y l IH]; intros I F; [destruct I|]. cbn.
  destruct I as [->|I].
  - rewrite F. eauto.
  - destruct (IH I F) as (e' & Q). rewrite Q. destruct (f y); eauto.
Qed.

Lemma Forall2_in_l_exists {A B} (R : A -> B -> Prop) (l : list A) (l' : list B) (x : A) :
  Forall2 R l l' -> In x l -> exists y, In y l' /\ R x y.
Proof.
  induction 1 as [|a b l l' H T IH]; intros I; [destruct I|].
  destruct I as [->|I].
  - exists b. split; [left; reflexivity | exact H].
  - destruct (IH I) as (y & Iy & Ry). exists y. split; [right; exact Iy | exact Ry].
Qed.

Lemma In_put (item x : StoredItem) (store : ObjectStore) :
  In item (put item store) /\ (In x (put item store) -> x = item \/ In x store).
Proof.
  induction store as [|y store [IH1 IH2]]; cbn.
  - split; [auto | intros [H|[]]; auto].
  - destruct (str_compare (itemKey item) (itemKey y)); cbn; split; auto.
    + intros [H|H]; auto.
    + intros [H|[H|H]]; auto.
    + intros [H|H]; auto. destruct (IH2 H); auto.
Qed.

Section Vault.
Context {P : Platform}.

(** PBKDF2 derives a 256-bit key; with such a key AES-GCM encrypts, and
    decrypts what it encrypted; [btoa] accepts every string of bytes, and
    [atob] undoes it. *)
Hypothesis pbkdf2_length :
  forall password salt iterations, length (pbkdf2 password salt iterations) = 32%nat.
Hypothesis aesGcm_encrypts :
  forall key iv data, length key = 32%nat -> aesGcmEncrypt key iv data <> None.
Hypothesis aesGcm_decrypt_encrypt :
  forall key iv data c,
    aesGcmEncrypt key iv data = Some c -> aesGcmDecrypt key iv c = Some data.
Hypothesis btoa_bytes : forall bytes, btoa (map byte_to_Z bytes) <> None.
Hypothesis atob_btoa : forall s t, btoa s = Some t -> atob t = Some s.

Lemma base64ToBytes_bytesToBase64 (bytes : list byte) (t : jsstring) :
  bytesToBase64 bytes = Some t -> base64ToBytes t = Some bytes.
Proof.
  unfold bytesToBase64, base64ToBytes. intros B.
  rewrite (atob_btoa _ B). cbn. f_equal.
  rewrite map_map. rewrite <- (map_id bytes) at 2.
  apply map_ext. intros b. apply ToUint8_byte_to_Z.
Qed.

Lemma bytesToBase64_some (bytes : list byte) : exists t, bytesToBase64 bytes = Some t.
Proof.
  unfold bytesToBase64. destruct (btoa (map byte_to_Z bytes)) eqn:B; [eauto|].
  destruct (btoa_bytes _ B).
Qed.

(** Encrypting a conversation resolves, with a record of the same id and
    creation time. *)
Lemma encryptConversation_resolves (c : Conversation) (passphrase : jsstring)
  (e : entropy) :
  exists record e',
    encryptConversation c passphrase e = (Resolved record, e') /\
    rec_id record = id c /\ rec_createdAt record = createdAt c /\ rec_v record = 1.
Proof.
  unfold encryptConversation.
  destruct (getRandomValues 16 e) as [salt e1].
  destruct (getRandomValues 12 e1) as [iv e2].
  destruct (aesGcmEncrypt (deriveAesKey passphrase salt) iv
              (TextEncoder_encode (JSON_stringify c))) as [ct|] eqn:C.
  - destruct (bytesToBase64_some ct) as (t1 & B1).
    destruct (bytesToBase64_some iv) as (t2 & B2).
    destruct (bytesToBase64_some salt) as (t3 & B3).
    cbn [orThrow bind]. rewrite B1. cbn [orThrow bind].
    rewrite B2. cbn [orThrow bind]. rewrite B3. cbn [orThrow bind].
    eexists. eexists. split; [reflexivity|]. cbn. auto.
  - exfalso. apply (aesGcm_encrypts _ _ _ (pbkdf2_length _ _ _) C).
Qed.

(** Decrypting a record under the passphrase it was encrypted with yields
    what [JSON.parse] makes of the serialised conversation. *)
Lemma decrypt_encryptConversation (c : Conversation) (passphrase : jsstring)
  (e e' : entropy) (record : EncryptedConversationRecord) :
  isWellFormed (JSON_stringify c) = true ->
  startsWithBOM (JSON_stringify c) = false ->
  encryptConversation c passphrase e = (Resolved record, e') ->
  decryptConversation record passphrase
    = orThrow SyntaxError (JSON_parse (JSON_stringify c)).
Proof.
  intros W B. unfold encryptConversation.
  destruct (getRandomValues 16 e) as [salt0 e1].
  destruct (getRandomValues 12 e1) as [iv0 e2].
  destruct (aesGcmEncrypt (deriveAesKey passphrase salt0) iv0
              (TextEncoder_encode (JSON_stringify c))) as [ct|] eqn:C;
    cbn [orThrow bind]; [|discriminate].
  destruct (bytesToBase64 ct) as [t1|] eqn:B1; cbn [orThrow bind]; [|discriminate].
  destruct (bytesToBase64 iv0) as [t2|] eqn:B2; cbn [orThrow bind]; [|discriminate].
  destruct (bytesToBase64 salt0) as [t3|] eqn:B3; cbn [orThrow bind]; [|discriminate].
  intros [= <- _]. unfold decryptConversation. cbn [salt iv payload].
  rewrite (base64ToBytes_bytesToBase64 _ B1), (base64ToBytes_bytesToBase64 _ B2),
    (base64ToBytes_bytesToBase64 _ B3).
  cbn [orThrow bind]. rewrite (aesGcm_decrypt_encrypt _ _ _ C). cbn [orThrow bind].
  rewrite TextDecoder_decode_encode by assumption. reflexivity.
Qed.

(** C2. With a passphrase that is not empty, a conversation that JSON
    serialisation gives back, and a vault whose content loads under the
    passphrase: saving the conversation resolves, and loading the vault
    afterwards under the same passphrase resolves with a list that contains
    the conversation, has one entry for each stored record, and is sorted
    by creation time, newest first. *)
Theorem saveConversation_getAllConversations (c : Conversation) (passphrase : jsstring)
  (store : ObjectStore) (prior : list Conversation) (e : entropy) :
  isEmptyString passphrase = false ->
  JSON_parse (JSON_stringify c) = Some c ->
  isWellFormed (JSON_stringify c) = true ->
  startsWithBOM (JSON_stringify c) = false ->
  getAllConversations passphrase store = Resolved prior ->
  exists store' e' loaded,
    saveConversation c passphrase store e = (Resolved tt, store', e') /\
    getAllConversations passphrase store' = Resolved loaded /\
    In c loaded /\
    length loaded = length store' /\
    Sorted newestFirst loaded.
Proof.
  intros NE J W B L.
  destruct (encryptConversation_resolves c passphrase e) as (record & e' & E & _).
  pose proof (decrypt_encryptConversation W B E) as D.
  rewrite J in D. cbn [orThrow] in D.
  unfold saveConversation, getAllConversations in *. rewrite NE in *. rewrite E.
  destruct (Promise_all (map (loadItem passphrase) (getAll store))) as [old|err] eqn:Q;
    cbn [bind] in L; [|discriminate].
  apply Promise_all_resolved in Q. unfold getAll in *.
  assert (A : forall x, In x (put (StoredEncrypted record) store) ->
                exists y, loadItem passphrase x = Resolved y).
  { intros x I. apply In_put in I as [->|I]; [cbn; eauto|].
    destruct (@Forall2_in_l_exists _ _ _ _ _ x Q I) as (y & _ & F). eauto. }
  assert (X : exists new,
             Forall2 (fun x y => loadItem passphrase x = Resolved y)
               (put (StoredEncrypted record) store) new).
  { clear - A. induction (put (StoredEncrypted record) store) as [|x l IH].
    - exists []. constructor.
    - destruct (A x (or_introl eq_refl)) as (y & F).
      destruct IH as (ys & T); [intros z I; apply A; right; exact I|].
      exists (y :: ys). constructor; assumption. }
  destruct X as (new & T).
  pose proof (proj2 (@Promise_all_resolved _ _ _ _ _) T) as Q'.
  exists (put (StoredEncrypted record) store), e'.
  eexists. split; [reflexivity|]. rewrite Q'. cbn [bind]. split; [reflexivity|].
  split; [|split].
  - apply (Permutation_in _ (Permutation_sym (Array_sort_Permutation _ new))).
    destruct (@Forall2_in_l_exists _ _ _ _ _ _ T
                (proj1 (In_put (StoredEncrypted record) (StoredEncrypted record) store)))
      as (y & I & F).
    cbn in F. rewrite D in F. injection F as <-. exact I.
  - rewrite (Permutation_length (Array_sort_Permutation _ new)).
    symmetry. exact (Forall2_length T).
  - apply Array_sort_newestFirst.
Qed.

(** C3. With a passphrase that is not empty, if decryption rejects for one
    stored record, whichever it is, the load rejects as a whole; and when a
    load resolves, every stored item was read: the list has one
    conversation for each.  With the empty passphrase the load resolves with
    the empty list. *)
Theorem getAllConversations_all_or_nothing (passphrase : jsstring)
  (store : ObjectStore) (record : EncryptedConversationRecord) (err : error) :
  In (StoredEncrypted record) store ->
  decryptConversation record passphrase = Rejected err ->
  (isEmptyString passphrase = false ->
     exists err', getAllConversations passphrase store = Rejected err') /\
  (isEmptyString passphrase = true ->
     getAllConversations passphrase store = Resolved []) /\
  (forall passphrase' loaded,
     isEmptyString passphrase' = false ->
     getAllConversations passphrase' store = Resolved loaded ->
     length loaded = length store /\
     forall item, In item store ->
       exists c', loadItem passphrase' item = Resolved c' /\ In c' loaded).
Proof.
  intros I D. unfold getAllConversations. split; [|split].
  - intros ->.
    destruct (@Promise_all_rejected _ _ (loadItem passphrase) store _ _ I D) as (e' & Q).
    unfold getAll. rewrite Q. cbn. eauto.
  - intros ->. reflexivity.
  - intros p' loaded -> L. unfold getAll in L.
    destruct (Promise_all (map (loadItem p') store)) as [out|e'] eqn:Q;
      cbn [bind] in L; [|discriminate].
    injection L as <-. apply Promise_all_resolved in Q.
    pose proof (Array_sort_Permutation (fun a b => createdAt b - createdAt a) out) as Pm.
    split.
    + rewrite (Permutation_length Pm). symmetry. exact (Forall2_length Q).
    + intros item Ii. destruct (@Forall2_in_l_exists _ _ _ _ _ item Q Ii) as (y & Iy & F).
      exists y. split; [exact F|]. apply (Permutation_in _ (Permutation_sym Pm) Iy).
Qed.

End Vault.

Lemma Demo_pbkdf2_length (password salt : list byte) (iterations : Z) :
  length (Demo.pbkdf2 password salt iterations) = 32%nat.
Proof.
  unfold Demo.pbkdf2, Demo.zeros.
  rewrite length_firstn, !length_app, repeat_length. lia.
Qed.

Lemma Demo_btoa_bytes (bytes : list byte) : Demo.btoa (map byte_to_Z bytes) <> None.
Proof.
  unfold Demo.btoa.
  replace (forallb (fun c => (0 <=? c) && (c <? 256)) (map byte_to_Z bytes)) with true;
    [discriminate|].
  symmetry. apply forallb_forall. intros c I. apply in_map_iff in I as (b & <- & _).
  pose proof (byte_to_Z_range b). apply andb_true_iff.
  split; [apply Z.leb_le | apply Z.ltb_lt]; lia.
Qed.

Lemma Demo_atob_btoa (s t : jsstring) : Demo.btoa s = Some t -> Demo.atob t = Some s.
Proof.
  unfold Demo.btoa, Demo.atob.
  destruct (forallb _ s); [|discriminate]. intros [= <-]. reflexivity.
Qed.

Lemma saveConversation_getAllConversations_witness :
  isEmptyString (js "correct") = false /\
  JSON_parse (JSON_stringify Demo.conversation) = Some Demo.conversation /\
  getAllConversations (js "correct") [] = Resolved [] /\
  exists store' e' loaded,
    saveConversation Demo.conversation (js "correct") [] Demo.counting
      = (Resolved tt, store', e') /\
    getAllConversations (js "correct") store' = Resolved loaded /\
    In Demo.conversation loaded /\
    Sorted newestFirst loaded.
Proof.
  split; [reflexivity|]. split; [reflexivity|]. split; [reflexivity|].
  destruct (@saveConversation_getAllConversations Demo.platform
              Demo_pbkdf2_length Demo_aesGcm_encrypts Demo_aesGcm_decrypt_encrypt
              Demo_btoa_bytes Demo_atob_btoa
              Demo.conversation (js "correct") [] [] Demo.counting)
    as (store' & e' & loaded & S & L & I & _ & O).
  - reflexivity.
  - reflexivity.
  - reflexivity.
  - reflexivity.
  - reflexivity.
  - exists store', e', loaded. auto.
Defined.

(** With the empty passphrase nothing is saved and nothing is loaded. *)
Lemma empty_passphrase_saves_nothing :
  fst (fst (saveConversation Demo.conversation (js "") [] Demo.counting))
    = Rejected VaultLocked /\
  snd (fst (saveConversation Demo.conversation (js "") [] Demo.counting)) = [] /\
  getAllConversations (js "")
    (snd (fst (saveConversation Demo.conversation (js "") [] Demo.counting)))
    = Resolved [].
Proof. repeat split. Qed.

Lemma getAllConversations_all_or_nothing_witness :
  exists record,
    In (StoredEncrypted record) Demo.vault /\
    decryptConversation record (js "wrong") = Rejected OperationError /\
    isEmptyString (js "wrong") = false /\
    exists err', getAllConversations (js "wrong") Demo.vault = Rejected err'.
Proof.
  remember Demo.vault as s eqn:V. vm_compute in V.
  destruct s as [|[c|record] [|]]; try discriminate V.
  injection V as V.
  exists record. split; [left; reflexivity|].
  assert (D : decryptConversation record (js "wrong") = Rejected OperationError)
    by (subst record; vm_compute; reflexivity).
  split; [exact D|]. split; [reflexivity|].
  exact (proj1 (@getAllConversations_all_or_nothing Demo.platform (js "wrong")
                  [StoredEncrypted record] record OperationError
                  (or_introl eq_refl) D) eq_refl).
Defined.

(** A vault that holds a record saved under ["correct"] loads, under the
    empty passphrase, as the empty list. *)
Lemma empty_passphrase_loads_nothing :
  fst (fst (saveConversation Demo.conversation (js "correct") [] Demo.counting))
    = Resolved tt /\
  length Demo.vault = 1%nat /\
  getAllConversations (js "") Demo.vault = Resolved [].
Proof. repeat split. Qed.

(* ================================================================== *)
(** * Further properties: hexadecimal text *)

Lemma hexDigitValue_range (c d : Z) :
  hexDigitValue c = Some d ->
  0 <= d < 16 /\ isWhiteSpace c = false /\
  (c =? 45) = false /\ (c =? 43) = false /\ (c =? 120) = false /\ (c =? 88) = false.
Proof.
  unfold hexDigitValue, isWhiteSpace.
  destruct (Z.leb_spec 48 c), (Z.leb_spec c 57); cbn [andb].
  2-4: destruct (Z.leb_spec 97 c), (Z.leb_spec c 102); cbn [andb].
  all: try (destruct (Z.leb_spec 65 c), (Z.leb_spec c 70); cbn [andb]).
  all: try discriminate.
  all: intros [= <-].
  all: repeat match goal with
       | |- _ /\ _ => split
       | |- context [?a =? ?b] =>
           replace (a =? b) with false by (symmetry; apply Z.eqb_neq; lia)
       | |- context [?a <=? ?b] =>
           replace (a <=? b) with false by (symmetry; apply Z.leb_gt; lia)
       end; try lia; try reflexivity.
Qed.

(** Two hexadecimal digits, of either case, are read as one byte. *)
Lemma parseInt16_hex_pair (c1 c2 h l : Z) :
  hexDigitValue c1 = Some h -> hexDigitValue c2 = Some l ->
  storeNumber (parseInt16 [c1; c2]) = ToUint8 (16 * h + l).
Proof.
  intros H1 H2.
  destruct (@hexDigitValue_range _ _ H1) as (R1 & W & M & Pl & X & X').
  destruct (@hexDigitValue_range _ _ H2) as (R2 & _ & _ & _ & Xl & Xl').
  unfold parseInt16. simpl dropWhiteSpace. rewrite W.
  unfold startsWith; simpl. rewrite M, Pl; simpl. rewrite Xl, Xl'.
  rewrite !andb_false_r; simpl. rewrite H1, H2. simpl.
  f_equal. lia.
Qed.

Lemma length_hexPairs (s : jsstring) :
  length (hexPairs s) = Nat.div2 (length s).
Proof.
  induction s as [|c rest IH1 IH2] using list_ind_ahead; [reflexivity|].
  destruct rest as [|c2 rest']; [reflexivity|].
  cbn [hexPairs length Nat.div2]. f_equal. exact (IH2 c2 rest' eq_refl).
Qed.

Lemma isLowerHexChar_hexDigitChar (d : Z) :
  0 <= d < 16 -> isLowerHexChar (hexDigitChar d) = true.
Proof.
  intros R. destruct (hexDigitChar_cases R) as [C|C]; unfold isLowerHexChar.
  - replace (48 <=? hexDigitChar d) with true by (symmetry; apply Z.leb_le; lia).
    replace (hexDigitChar d <=? 57) with true by (symmetry; apply Z.leb_le; lia).
    reflexivity.
  - replace (97 <=? hexDigitChar d) with true by (symmetry; apply Z.leb_le; lia).
    replace (hexDigitChar d <=? 102) with true by (symmetry; apply Z.leb_le; lia).
    apply orb_true_r.
Qed.

Lemma isLowerHexChar_value (c : Z) :
  isLowerHexChar c = true ->
  exists d, hexDigitValue c = Some d /\ 0 <= d < 16 /\ hexDigitChar d = c.
Proof.
  unfold isLowerHexChar, hexDigitValue, hexDigitChar. intros H.
  apply orb_true_iff in H as [H|H]; apply andb_true_iff in H as [H1 H2];
    apply Z.leb_le in H1; apply Z.leb_le in H2.
  - exists (c - 48).
    replace (48 <=? c) with true by (symmetry; apply Z.leb_le; lia).
    replace (c <=? 57) with true by (symmetry; apply Z.leb_le; lia).
    replace (c - 48 <? 10) with true by (symmetry; apply Z.ltb_lt; lia).
    cbn [andb]. repeat split; lia.
  - exists (c - 87).
    replace (c <=? 57) with false by (symmetry; apply Z.leb_gt; lia).
    replace (97 <=? c) with true by (symmetry; apply Z.leb_le; lia).
    replace (c <=? 102) with true by (symmetry; apply Z.leb_le; lia).
    replace (c - 87 <? 10) with false by (symmetry; apply Z.ltb_ge; lia).
    rewrite andb_false_r. cbn [andb]. repeat split; lia.
Qed.

Lemma forallb_lower_bytesToHex (bytes : list byte) :
  forallb isLowerHexChar (bytesToHex bytes) = true.
Proof.
  induction bytes as [|b bs IH]; [reflexivity|].
  change (bytesToHex (b :: bs)) with (byteToHex b ++ bytesToHex bs).
  rewrite forallb_app, IH, andb_true_r. unfold byteToHex. cbn [forallb].
  pose proof (byte_to_Z_range b) as R.
  rewrite !isLowerHexChar_hexDigitChar; [reflexivity| |].
  - apply Z.mod_pos_bound. lia.
  - split; [apply Z.div_pos; lia | apply Z.div_lt_upper_bound; lia].
Qed.

Lemma isLowerHexChar_isHexChar (c : Z) : isLowerHexChar c = true -> isHexChar c = true.
Proof.
  intros H. destruct (@isLowerHexChar_value _ H) as (d & V & _).
  unfold isHexChar. rewrite V. reflexivity.
Qed.

(** X1. Decoding the hexadecimal text of a byte sequence gives the sequence
    back, also when the text carries the prefix ["0x"]. *)
Theorem hex_round_trip (bytes : list byte) :
  hexToBytes (bytesToHex bytes) = bytes /\
  hexToBytes (js "0x" ++ bytesToHex bytes) = bytes.
Proof.
  split; [apply hexToBytes_bytesToHex|].
  unfold hexToBytes. change (stripHexPrefix (js "0x" ++ bytesToHex bytes))
    with (bytesToHex bytes).
  apply hexPairs_bytesToHex.
Qed.

(** X2. [bytesToHex] writes two characters for each byte, digits and
    lower-case letters [a]-[f] only; the text never begins with ["0x"], and
    for at least one byte it passes [isHex]. *)
Theorem bytesToHex_is_lowercase_hex (bytes : list byte) :
  length (bytesToHex bytes) = (2 * length bytes)%nat /\
  forallb isLowerHexChar (bytesToHex bytes) = true /\
  startsWith (bytesToHex bytes) (js "0x") = false /\
  (bytes <> [] -> isHex (bytesToHex bytes) = true).
Proof.
  split; [apply length_bytesToHex|]. split; [apply forallb_lower_bytesToHex|]. split.
  - pose proof (stripHexPrefix_bytesToHex bytes) as S. unfold stripHexPrefix in S.
    destruct (startsWith (bytesToHex bytes) (js "0x")) eqn:E; [|reflexivity].
    apply (f_equal (@length Z)) in S. rewrite length_skipn, length_bytesToHex in S.
    destruct bytes as [|b bs]; [discriminate E|]. cbn [length] in S. lia.
  - intros N. unfold isHex. rewrite length_bytesToHex.
    destruct bytes as [|b bs]; [contradiction|]. cbn [length Nat.mul Nat.add Nat.eqb negb andb].
    apply forallb_forall. intros c I. apply isLowerHexChar_isHexChar.
    pose proof (forallb_lower_bytesToHex (b :: bs)) as F.
    rewrite forallb_forall in F. apply F. exact I.
Qed.

Lemma hexPairs_lower (s : jsstring) :
  forallb isLowerHexChar s = true -> Nat.even (length s) = true ->
  bytesToHex (hexPairs s) = s.
Proof.
  induction s as [|c rest IH1 IH2] using list_ind_ahead; intros F E; [reflexivity|].
  destruct rest as [|c2 rest']; [discriminate E|].
  cbn [forallb] in F. apply andb_prop in F as [F1 F]. apply andb_prop in F as [F2 F].
  destruct (@isLowerHexChar_value _ F1) as (h & V1 & R1 & C1).
  destruct (@isLowerHexChar_value _ F2) as (l & V2 & R2 & C2).
  cbn [hexPairs]. rewrite (@parseInt16_hex_pair _ _ _ _ V1 V2).
  change (bytesToHex (ToUint8 (16 * h + l) :: hexPairs rest'))
    with (byteToHex (ToUint8 (16 * h + l)) ++ bytesToHex (hexPairs rest')).
  rewrite (IH2 c2 rest' eq_refl F) by exact E.
  unfold byteToHex. rewrite byte_to_Z_ToUint8 by lia.
  replace ((16 * h + l) / 16) with h by (Z.div_mod_to_equations; lia).
  replace ((16 * h + l) mod 16) with l by (Z.div_mod_to_equations; lia).
  rewrite C1, C2. reflexivity.
Qed.

(** X3. A text of an even number of lower-case hexadecimal digits is the
    canonical form: encoding the bytes it decodes to gives the text back. *)
Theorem bytesToHex_hexToBytes (s : jsstring) :
  forallb isLowerHexChar s = true -> Nat.even (length s) = true ->
  bytesToHex (hexToBytes s) = s.
Proof.
  intros F E. unfold hexToBytes, stripHexPrefix.
  destruct (startsWith s (js "0x")) eqn:S; [|apply hexPairs_lower; assumption].
  exfalso. destruct s as [|c1 [|c2 rest]]; try discriminate S; try discriminate E.
  unfold startsWith in S. cbn in S.
  cbn [forallb] in F. apply andb_prop in F as [_ F]. apply andb_prop in F as [F2 _].
  unfold isLowerHexChar in F2.
  destruct (Z.eqb_spec c2 120); [subst; discriminate F2|].
  rewrite andb_false_r in S. discriminate S.
Qed.

Lemma bytesToHex_hexToBytes_witness :
  forallb isLowerHexChar (js "04ab") = true /\ Nat.even (length (js "04ab")) = true /\
  bytesToHex (hexToBytes (js "04ab")) = js "04ab".
Proof.
  split; [reflexivity|]. split; [reflexivity|].
  apply bytesToHex_hexToBytes; reflexivity.
Defined.

Lemma upperHexChar_value (d : Z) :
  0 <= d < 16 -> hexDigitValue (upperHexChar (hexDigitChar d)) = Some d.
Proof.
  intros R. unfold upperHexChar, hexDigitChar, hexDigitValue.
  destruct (Z.ltb_spec d 10).
  - replace (97 <=? 48 + d) with false by (symmetry; apply Z.leb_gt; lia).
    cbn [andb].
    replace (48 <=? 48 + d) with true by (symmetry; apply Z.leb_le; lia).
    replace (48 + d <=? 57) with true by (symmetry; apply Z.leb_le; lia).
    cbn [andb]. f_equal; lia.
  - replace (97 <=? 87 + d) with true by (symmetry; apply Z.leb_le; lia).
    replace (87 + d <=? 102) with true by (symmetry; apply Z.leb_le; lia).
    cbn [andb].
    replace (87 + d - 32 <=? 57) with false by (symmetry; apply Z.leb_gt; lia).
    replace (97 <=? 87 + d - 32) with false by (symmetry; apply Z.leb_gt; lia).
    replace (65 <=? 87 + d - 32) with true by (symmetry; apply Z.leb_le; lia).
    replace (87 + d - 32 <=? 70) with true by (symmetry; apply Z.leb_le; lia).
    rewrite andb_false_r. cbn [andb]. f_equal; lia.
Qed.

(** X4. [hexToBytes] gives one byte for every two characters that follow an
    optional ["0x"], a last single character being dropped; and it reads
    upper-case digits as it reads lower-case ones. *)
Theorem hexToBytes_length_and_case (s : jsstring) (bytes : list byte) :
  length (hexToBytes s) = Nat.div2 (length (stripHexPrefix s)) /\
  hexToBytes (map upperHexChar (bytesToHex bytes)) = bytes.
Proof.
  split; [apply length_hexPairs|].
  assert (H : hexPairs (map upperHexChar (bytesToHex bytes)) = bytes).
  { induction bytes as [|b bs IH]; [reflexivity|].
    change (bytesToHex (b :: bs)) with (byteToHex b ++ bytesToHex bs).
    rewrite map_app. unfold byteToHex at 1. cbn [map app hexPairs].
    pose proof (byte_to_Z_range b) as R.
    assert (Rh : 0 <= byte_to_Z b / 16 < 16)
      by (split; [apply Z.div_pos; lia | apply Z.div_lt_upper_bound; lia]).
    assert (Rl : 0 <= byte_to_Z b mod 16 < 16) by (apply Z.mod_pos_bound; lia).
    rewrite (@parseInt16_hex_pair _ _ _ _ (upperHexChar_value Rh) (upperHexChar_value Rl)), IH.
    f_equal. replace (16 * (byte_to_Z b / 16) + byte_to_Z b mod 16) with (byte_to_Z b)
      by (Z.div_mod_to_equations; lia).
    apply ToUint8_byte_to_Z. }
  unfold hexToBytes, stripHexPrefix.
  destruct (startsWith (map upperHexChar (bytesToHex bytes)) (js "0x")) eqn:S;
    [|exact H].
  exfalso. destruct bytes as [|b bs]; [discriminate S|].
  change (bytesToHex (b :: bs)) with (byteToHex b ++ bytesToHex bs) in S.
  unfold byteToHex, startsWith in S. cbn in S.
  pose proof (byte_to_Z_range b) as R.
  assert (Rl : 0 <= byte_to_Z b mod 16 < 16) by (apply Z.mod_pos_bound; lia).
  pose proof (upperHexChar_value Rl) as V.
  destruct (Z.eqb_spec (upperHexChar (hexDigitChar (byte_to_Z b mod 16))) 120) as [X|X].
  - rewrite X in V. discriminate V.
  - rewrite andb_false_r in S. discriminate S.
Qed.

(** X5. [normalizePubKey] puts the byte 04 before a raw key of 64 bytes and
    leaves every other key as it is, with or without ["0x"] in front. *)
Theorem normalizePubKey_cases (bytes : list byte) :
  (length bytes = 64%nat ->
     normalizePubKey (bytesToHex bytes) = x04 :: bytes /\
     normalizePubKey (js "0x" ++ bytesToHex bytes) = x04 :: bytes) /\
  (length bytes <> 64%nat ->
     normalizePubKey (bytesToHex bytes) = bytes /\
     normalizePubKey (js "0x" ++ bytesToHex bytes) = bytes).
Proof.
  assert (A : normalizePubKey (js "0x" ++ bytesToHex bytes)
              = normalizePubKey (bytesToHex bytes)).
  { unfold normalizePubKey.
    change (stripHexPrefix (js "0x" ++ bytesToHex bytes)) with (bytesToHex bytes).
    rewrite stripHexPrefix_bytesToHex. reflexivity. }
  rewrite A. unfold normalizePubKey.
  rewrite stripHexPrefix_bytesToHex, hexToBytes_bytesToHex.
  split; intros L.
  - rewrite L. auto.
  - destruct (Nat.eqb_spec (length bytes) 64); [contradiction | auto].
Qed.

(** X6. A signing key that passes the format check of the attestation is
    turned by [normalizePubKey] into a point encoding of exactly 65 bytes. *)
Theorem keyLooksValid_normalizes_to_65_bytes (key : jsstring) :
  keyLooksValid key = true -> length (normalizePubKey key) = 65%nat.
Proof.
  unfold keyLooksValid, replaceLeading0x. fold (stripHexPrefix key).
  intros H. apply andb_prop in H as [Hx L]. unfold isHex in Hx.
  apply andb_prop in Hx as [_ Hx].
  set (clean := stripHexPrefix key) in *.
  assert (Lc : length clean = 128%nat \/ length clean = 130%nat).
  { unfold clean, stripHexPrefix in *.
    destruct (startsWith key (js "0x")); [rewrite length_skipn|];
      apply orb_prop in L as [L|L]; apply Nat.eqb_eq in L; auto. }
  assert (S : stripHexPrefix clean = clean).
  { unfold stripHexPrefix. destruct (startsWith clean (js "0x")) eqn:E; [|reflexivity].
    exfalso. destruct clean as [|c1 [|c2 rest]]; try discriminate E;
      try (destruct Lc; discriminate).
    unfold startsWith in E. cbn in E.
    cbn [forallb] in Hx. apply andb_prop in Hx as [_ Hx]. apply andb_prop in Hx as [H2 _].
    destruct (Z.eqb_spec c2 120); [subst; discriminate H2|].
    rewrite andb_false_r in E. discriminate E. }
  unfold normalizePubKey. fold clean. unfold hexToBytes. rewrite S.
  rewrite length_hexPairs.
  destruct Lc as [Lc|Lc]; rewrite Lc; cbn [Nat.div2 Nat.eqb length];
    rewrite ?length_hexPairs, ?Lc; reflexivity.
Qed.

Lemma keyLooksValid_normalizes_to_65_bytes_witness :
  keyLooksValid Demo.signingKey = true /\
  length (normalizePubKey Demo.signingKey) = 65%nat.
Proof.
  split; [reflexivity|].
  apply keyLooksValid_normalizes_to_65_bytes. reflexivity.
Defined.
